(** * Chatbot.tsx: the conversation/session state machine

    A shallow embedding of [src/components/Chatbot.tsx]: the history index
    ([promoteConversation] and friends), the conversation store, the composer's
    attachment buffer and the submit protocol with its delayed, simulated
    assistant reply.

    Conventions.
    - A JavaScript string is its sequence of UTF-16 code units, [list N].
      ASCII literals are written [lit "..."]; other characters are given by
      their code unit.
    - A React state cell is a field of [state]; an event handler is a function
      [state -> state] (every [setX] of the handler applied in order).
    - [Math.random()] is an oracle: [random36 k] is the base-36 numeral that the
      [k]-th call of [Math.random().toString(36)] prints.
    - [window.setTimeout] callbacks are entries of a table of pending timers,
      keyed by the timer handle; the event loop runs one when it is due.
    - JavaScript objects that are mutated in place ([splice], [push], field
      assignment inside [promoteConversation]) are modelled a second time
      over an explicit object store, see [Module Heap]. *)

From Stdlib Require Import String Ascii NArith List DecimalString Decimal.
From stdpp Require Import gmap list.
Import ListNotations.

#[local] Set Warnings "-clear-no-such-hyp".

Open Scope N_scope.

(** ** JavaScript strings *)

Abbreviation jsstring := (list N).

Definition lit (s : string) : jsstring :=
  map N_of_ascii (list_ascii_of_string s).

(** Template-literal rendering of a non-negative integer, [`${n}`]. *)
Definition Number_toString (n : nat) : jsstring :=
  lit (NilZero.string_of_uint (Nat.to_uint n)).

(** [WhiteSpace] and [LineTerminator] code points of ECMAScript (all of them
    in the basic plane, hence single code units). *)
Definition isWhiteSpace (c : N) : bool :=
  (c =? 9) || (c =? 10) || (c =? 11) || (c =? 12) || (c =? 13) || (c =? 32)
  || (c =? 160) || (c =? 5760) || ((8192 <=? c) && (c <=? 8202))
  || (c =? 8232) || (c =? 8233) || (c =? 8239) || (c =? 8287)
  || (c =? 12288) || (c =? 65279).

Fixpoint trimStart (s : jsstring) : jsstring :=
  match s with
  | c :: s' => if isWhiteSpace c then trimStart s' else s
  | [] => []
  end.

Definition trimEnd (s : jsstring) : jsstring := rev (trimStart (rev s)).

(** [String.prototype.trim] *)
Definition trim (s : jsstring) : jsstring := trimEnd (trimStart s).

(** [s.slice(from, to)] for non-negative bounds. *)
Definition slice {A} (from to : nat) (s : list A) : list A :=
  take (to - from) (drop from s).

Fixpoint startsWith (p s : jsstring) : bool :=
  match p, s with
  | [], _ => true
  | a :: p', b :: s' => (a =? b) && startsWith p' s'
  | _ :: _, [] => false
  end.

(** [parts.join(sep)] *)
Fixpoint join (sep : jsstring) (parts : list jsstring) : jsstring :=
  match parts with
  | [] => []
  | [p] => p
  | p :: rest => p ++ sep ++ join sep rest
  end.

(** [a || b] on strings: the empty string is falsy. *)
Definition or_else (a b : jsstring) : jsstring :=
  match a with [] => b | _ => a end.

(** [a || b] where [a] is [string | undefined]. *)
Definition opt_or_else (a : option jsstring) (b : jsstring) : jsstring :=
  match a with Some (c :: s) => c :: s | _ => b end.

(** [.filter(Boolean)] on an array of [string | undefined]. *)
Fixpoint filter_Boolean (parts : list (option jsstring)) : list jsstring :=
  match parts with
  | [] => []
  | Some (c :: s) :: rest => (c :: s) :: filter_Boolean rest
  | _ :: rest => filter_Boolean rest
  end.

(** [haystack.includes(needle)], as a proposition. *)
Definition includes (haystack needle : jsstring) : Prop :=
  exists before after, haystack = before ++ needle ++ after.

Definition nl : jsstring := [10].
Definition dq : jsstring := [34].
Definition emdash : jsstring := [8212].
Definition bullet : jsstring := [8226].
Definition ellipsis : jsstring := [8230].

(** ** Data model *)

Inductive Role := user | assistant.

Inductive Reaction := upvote | downvote.

#[global] Instance Role_eq_dec : EqDecision Role.
Proof. solve_decision. Defined.

#[global] Instance Reaction_eq_dec : EqDecision Reaction.
Proof. solve_decision. Defined.

Record Attachment := {
  a_id : jsstring;
  a_name : jsstring;
  a_type : jsstring;
  a_size : N;
  a_preview : jsstring
}.

(** Optional fields ([?:]) are [option]s, [None] standing for [undefined];
    [reaction] is never left undefined by the code, its [None] is [null]. *)
Record ConversationMessage := {
  m_id : jsstring;
  m_role : Role;
  m_name : jsstring;
  m_avatarFallback : jsstring;
  m_avatarUrl : option jsstring;
  m_content : jsstring;
  m_markdown : option bool;
  m_attachments : option (list Attachment);
  m_reaction : option Reaction
}.

Record MessageTemplate := {
  t_role : Role;
  t_name : jsstring;
  t_avatarFallback : jsstring;
  t_content : jsstring;
  t_markdown : option bool
}.

Record HistoryConversation := {
  h_id : jsstring;
  h_title : jsstring;
  h_preview : jsstring;
  h_timestamp : jsstring
}.

Record HistoryGroup := {
  g_label : jsstring;
  g_conversations : list HistoryConversation
}.

Record ModelOption := { mo_id : jsstring; mo_label : jsstring }.

Record ProviderOption := {
  p_id : jsstring;
  p_label : jsstring;
  models : list ModelOption
}.

(** The [File] fields that [addAttachmentFromFile] reads. *)
Record File := {
  f_name : jsstring;
  f_type : jsstring;
  f_size : N
}.

Definition provider0 : ProviderOption :=
  {| p_id := lit "openai"; p_label := lit "OpenAI";
     models := [ {| mo_id := lit "gpt-4o"; mo_label := lit "GPT-4o" |};
                 {| mo_id := lit "gpt-4o-mini"; mo_label := lit "GPT-4o mini" |};
                 {| mo_id := lit "o3-mini"; mo_label := lit "O3 mini" |} ] |}.

Definition providers : list ProviderOption :=
  [ provider0;
    {| p_id := lit "anthropic"; p_label := lit "Anthropic";
       models := [ {| mo_id := lit "claude-3.7-sonnet"; mo_label := lit "Claude 3.7 Sonnet" |};
                   {| mo_id := lit "claude-3.5-haiku"; mo_label := lit "Claude 3.5 Haiku" |} ] |};
    {| p_id := lit "google"; p_label := lit "Google Gemini";
       models := [ {| mo_id := lit "gemini-2.0-flash"; mo_label := lit "Gemini 2.0 Flash" |};
                   {| mo_id := lit "gemini-1.5-pro"; mo_label := lit "Gemini 1.5 Pro" |} ] |};
    {| p_id := lit "groq"; p_label := lit "Groq";
       models := [ {| mo_id := lit "llama-3.1-70b"; mo_label := lit "Llama 3.1 70B" |};
                   {| mo_id := lit "mixtral-8x7b"; mo_label := lit "Mixtral 8x7B" |} ] |} ].

Definition historySeed : list HistoryGroup :=
  [ {| g_label := lit "Today";
       g_conversations :=
         [ {| h_id := lit "today-1"; h_title := lit "Product launch prep";
              h_preview := lit "Drafted announcement copy and QA checklist for beta release.";
              h_timestamp := lit "2h ago" |};
           {| h_id := lit "today-2"; h_title := lit "Onboarding survey";
              h_preview := lit "Outlined questions that capture first-week friction and success signals.";
              h_timestamp := lit "4h ago" |};
           {| h_id := lit "today-3"; h_title := lit "Design critique notes";
              h_preview := lit "Summarised feedback threads and grouped by priority / owner.";
              h_timestamp := lit "6h ago" |} ] |};
    {| g_label := lit "Earlier this week";
       g_conversations :=
         [ {| h_id := lit "week-1"; h_title := lit "Support triage ideas";
              h_preview := lit "Generated macros for the top friction requests from this week.";
              h_timestamp := lit "3 days ago" |};
           {| h_id := lit "week-2"; h_title := lit "Growth experiment doc";
              h_preview := lit "Mapped out hypotheses, guardrail metrics, and rollout cadence.";
              h_timestamp := lit "5 days ago" |} ] |} ].

(** ** The identifier generator *)

(** [createId()] is [Math.random().toString(36).slice(2, 10)]: with [draw] the
    base-36 numeral of the random number (["0."] followed by its digits), the
    identifier is the first eight digits at most. *)
Definition createId_of (draw : jsstring) : jsstring := slice 2 10 draw.

(** The identifiers returned by successive calls, given the successive draws. *)
Definition createId_calls (draws : list jsstring) : list jsstring :=
  map createId_of draws.

(** Code that draws identifiers: it is given the number of draws made so far
    and returns it advanced. *)
Definition Rand (A : Type) : Type := nat -> A * nat.

Definition ret {A} (a : A) : Rand A := fun k => (a, k).

Definition bind {A B} (m : Rand A) (f : A -> Rand B) : Rand B :=
  fun k => let '(a, k') := m k in f a k'.

Notation "'let*' x ':=' m 'in' f" := (bind m (fun x => f))
  (at level 10, x name, m at level 100, f at level 200).

Fixpoint mapR {A B} (f : A -> Rand B) (l : list A) : Rand (list B) :=
  match l with
  | [] => ret []
  | a :: l' => let* b := f a in let* bs := mapR f l' in ret (b :: bs)
  end.

(** ** Seed content *)

Definition messageTemplates : list MessageTemplate :=
  [ {| t_role := assistant; t_name := lit "Nova"; t_avatarFallback := lit "NO";
       t_content := lit "Hey there! I'm Nova, a prompt-kit powered assistant. Ask me anything about your product ideas, technical questions, or research tasks and I'll sketch out a plan you can wire up to your favourite model.";
       t_markdown := None |};
    {| t_role := user; t_name := lit "You"; t_avatarFallback := lit "YO";
       t_content := lit "Let's create a user interview outline that digs into motivation and workflow pains.";
       t_markdown := None |};
    {| t_role := assistant; t_name := lit "Nova"; t_avatarFallback := lit "NO";
       t_content :=
         join nl
           [ lit "Absolutely " ++ emdash ++ lit " here's a structured outline you can use:";
             [];
             lit "### Interview Outline";
             lit "1. **Warm up** " ++ emdash ++ lit " " ++ dq
               ++ lit "Can you tell me about your role and day-to-day responsibilities?" ++ dq;
             lit "2. **Motivation** " ++ emdash ++ lit " " ++ dq
               ++ lit "What made you start using [product/workflow]?" ++ dq;
             lit "3. **Current process** " ++ emdash ++ lit " " ++ dq
               ++ lit "Walk me through your last attempt step-by-step." ++ dq;
             lit "4. **Pain points** " ++ emdash ++ lit " " ++ dq
               ++ lit "Where does it feel slow, confusing, or fragile?" ++ dq;
             lit "5. **Desired outcomes** " ++ emdash ++ lit " " ++ dq
               ++ lit "If this was effortless, what would that unlock for you?" ++ dq;
             [];
             lit "Happy to tailor this if you share the audience or use case!" ];
       t_markdown := Some true |} ].

(** ** Session state

    The twelve [useState] cells of the component, followed by the state of
    its environment: how many random numbers were drawn, the clock (in
    milliseconds), the pending [setTimeout] callbacks by handle and the
    [FileReader]s that have not finished yet. *)

Inductive Callback :=
| Reply (conversationId : jsstring) (assistantMessage : ConversationMessage)
| ClearCopied (messageId : jsstring).

Record Timer := {
  due : nat;
  callback : Callback
}.

Record state := {
  historyGroups : list HistoryGroup;
  conversations : gmap jsstring (list ConversationMessage);
  activeConversationId : jsstring;
  activeConversationTitle : jsstring;
  chatCounter : nat;
  composerAttachments : list Attachment;
  copiedMessageId : option jsstring;
  input : jsstring;
  isGenerating : bool;
  selectedProviderId : jsstring;
  selectedModelId : jsstring;
  isSidebarOpen : bool;
  draws : nat;
  now : nat;
  timers : gmap nat Timer;
  nextTimer : nat;
  reads : gmap nat File;
  nextRead : nat
}.

Definition setHistoryGroups (f : list HistoryGroup -> list HistoryGroup) (s : state) : state :=
  {| historyGroups := f (historyGroups s);
     conversations := conversations s;
     activeConversationId := activeConversationId s;
     activeConversationTitle := activeConversationTitle s;
     chatCounter := chatCounter s;
     composerAttachments := composerAttachments s;
     copiedMessageId := copiedMessageId s;
     input := input s;
     isGenerating := isGenerating s;
     selectedProviderId := selectedProviderId s;
     selectedModelId := selectedModelId s;
     isSidebarOpen := isSidebarOpen s;
     draws := draws s;
     now := now s;
     timers := timers s;
     nextTimer := nextTimer s;
     reads := reads s;
     nextRead := nextRead s |}.

Definition setConversations (f : gmap jsstring (list ConversationMessage) -> gmap jsstring (list ConversationMessage)) (s : state) : state :=
  {| historyGroups := historyGroups s;
     conversations := f (conversations s);
     activeConversationId := activeConversationId s;
     activeConversationTitle := activeConversationTitle s;
     chatCounter := chatCounter s;
     composerAttachments := composerAttachments s;
     copiedMessageId := copiedMessageId s;
     input := input s;
     isGenerating := isGenerating s;
     selectedProviderId := selectedProviderId s;
     selectedModelId := selectedModelId s;
     isSidebarOpen := isSidebarOpen s;
     draws := draws s;
     now := now s;
     timers := timers s;
     nextTimer := nextTimer s;
     reads := reads s;
     nextRead := nextRead s |}.

Definition setActiveConversationId (f : jsstring -> jsstring) (s : state) : state :=
  {| historyGroups := historyGroups s;
     conversations := conversations s;
     activeConversationId := f (activeConversationId s);
     activeConversationTitle := activeConversationTitle s;
     chatCounter := chatCounter s;
     composerAttachments := composerAttachments s;
     copiedMessageId := copiedMessageId s;
     input := input s;
     isGenerating := isGenerating s;
     selectedProviderId := selectedProviderId s;
     selectedModelId := selectedModelId s;
     isSidebarOpen := isSidebarOpen s;
     draws := draws s;
     now := now s;
     timers := timers s;
     nextTimer := nextTimer s;
     reads := reads s;
     nextRead := nextRead s |}.

Definition setActiveConversationTitle (f : jsstring -> jsstring) (s : state) : state :=
  {| historyGroups := historyGroups s;
     conversations := conversations s;
     activeConversationId := activeConversationId s;
     activeConversationTitle := f (activeConversationTitle s);
     chatCounter := chatCounter s;
     composerAttachments := composerAttachments s;
     copiedMessageId := copiedMessageId s;
     input := input s;
     isGenerating := isGenerating s;
     selectedProviderId := selectedProviderId s;
     selectedModelId := selectedModelId s;
     isSidebarOpen := isSidebarOpen s;
     draws := draws s;
     now := now s;
     timers := timers s;
     nextTimer := nextTimer s;
     reads := reads s;
     nextRead := nextRead s |}.

Definition setChatCounter (f : nat -> nat) (s : state) : state :=
  {| historyGroups := historyGroups s;
     conversations := conversations s;
     activeConversationId := activeConversationId s;
     activeConversationTitle := activeConversationTitle s;
     chatCounter := f (chatCounter s);
     composerAttachments := composerAttachments s;
     copiedMessageId := copiedMessageId s;
     input := input s;
     isGenerating := isGenerating s;
     selectedProviderId := selectedProviderId s;
     selectedModelId := selectedModelId s;
     isSidebarOpen := isSidebarOpen s;
     draws := draws s;
     now := now s;
     timers := timers s;
     nextTimer := nextTimer s;
     reads := reads s;
     nextRead := nextRead s |}.

Definition setComposerAttachments (f : list Attachment -> list Attachment) (s : state) : state :=
  {| historyGroups := historyGroups s;
     conversations := conversations s;
     activeConversationId := activeConversationId s;
     activeConversationTitle := activeConversationTitle s;
     chatCounter := chatCounter s;
     composerAttachments := f (composerAttachments s);
     copiedMessageId := copiedMessageId s;
     input := input s;
     isGenerating := isGenerating s;
     selectedProviderId := selectedProviderId s;
     selectedModelId := selectedModelId s;
     isSidebarOpen := isSidebarOpen s;
     draws := draws s;
     now := now s;
     timers := timers s;
     nextTimer := nextTimer s;
     reads := reads s;
     nextRead := nextRead s |}.

Definition setCopiedMessageId (f : option jsstring -> option jsstring) (s : state) : state :=
  {| historyGroups := historyGroups s;
     conversations := conversations s;
     activeConversationId := activeConversationId s;
     activeConversationTitle := activeConversationTitle s;
     chatCounter := chatCounter s;
     composerAttachments := composerAttachments s;
     copiedMessageId := f (copiedMessageId s);
     input := input s;
     isGenerating := isGenerating s;
     selectedProviderId := selectedProviderId s;
     selectedModelId := selectedModelId s;
     isSidebarOpen := isSidebarOpen s;
     draws := draws s;
     now := now s;
     timers := timers s;
     nextTimer := nextTimer s;
     reads := reads s;
     nextRead := nextRead s |}.

Definition setInput (f : jsstring -> jsstring) (s : state) : state :=
  {| historyGroups := historyGroups s;
     conversations := conversations s;
     activeConversationId := activeConversationId s;
     activeConversationTitle := activeConversationTitle s;
     chatCounter := chatCounter s;
     composerAttachments := composerAttachments s;
     copiedMessageId := copiedMessageId s;
     input := f (input s);
     isGenerating := isGenerating s;
     selectedProviderId := selectedProviderId s;
     selectedModelId := selectedModelId s;
     isSidebarOpen := isSidebarOpen s;
     draws := draws s;
     now := now s;
     timers := timers s;
     nextTimer := nextTimer s;
     reads := reads s;
     nextRead := nextRead s |}.

Definition setIsGenerating (f : bool -> bool) (s : state) : state :=
  {| historyGroups := historyGroups s;
     conversations := conversations s;
     activeConversationId := activeConversationId s;
     activeConversationTitle := activeConversationTitle s;
     chatCounter := chatCounter s;
     composerAttachments := composerAttachments s;
     copiedMessageId := copiedMessageId s;
     input := input s;
     isGenerating := f (isGenerating s);
     selectedProviderId := selectedProviderId s;
     selectedModelId := selectedModelId s;
     isSidebarOpen := isSidebarOpen s;
     draws := draws s;
     now := now s;
     timers := timers s;
     nextTimer := nextTimer s;
     reads := reads s;
     nextRead := nextRead s |}.

Definition setSelectedProviderId (f : jsstring -> jsstring) (s : state) : state :=
  {| historyGroups := historyGroups s;
     conversations := conversations s;
     activeConversationId := activeConversationId s;
     activeConversationTitle := activeConversationTitle s;
     chatCounter := chatCounter s;
     composerAttachments := composerAttachments s;
     copiedMessageId := copiedMessageId s;
     input := input s;
     isGenerating := isGenerating s;
     selectedProviderId := f (selectedProviderId s);
     selectedModelId := selectedModelId s;
     isSidebarOpen := isSidebarOpen s;
     draws := draws s;
     now := now s;
     timers := timers s;
     nextTimer := nextTimer s;
     reads := reads s;
     nextRead := nextRead s |}.

Definition setSelectedModelId (f : jsstring -> jsstring) (s : state) : state :=
  {| historyGroups := historyGroups s;
     conversations := conversations s;
     activeConversationId := activeConversationId s;
     activeConversationTitle := activeConversationTitle s;
     chatCounter := chatCounter s;
     composerAttachments := composerAttachments s;
     copiedMessageId := copiedMessageId s;
     input := input s;
     isGenerating := isGenerating s;
     selectedProviderId := selectedProviderId s;
     selectedModelId := f (selectedModelId s);
     isSidebarOpen := isSidebarOpen s;
     draws := draws s;
     now := now s;
     timers := timers s;
     nextTimer := nextTimer s;
     reads := reads s;
     nextRead := nextRead s |}.

Definition setIsSidebarOpen (f : bool -> bool) (s : state) : state :=
  {| historyGroups := historyGroups s;
     conversations := conversations s;
     activeConversationId := activeConversationId s;
     activeConversationTitle := activeConversationTitle s;
     chatCounter := chatCounter s;
     composerAttachments := composerAttachments s;
     copiedMessageId := copiedMessageId s;
     input := input s;
     isGenerating := isGenerating s;
     selectedProviderId := selectedProviderId s;
     selectedModelId := selectedModelId s;
     isSidebarOpen := f (isSidebarOpen s);
     draws := draws s;
     now := now s;
     timers := timers s;
     nextTimer := nextTimer s;
     reads := reads s;
     nextRead := nextRead s |}.

Definition setDraws (f : nat -> nat) (s : state) : state :=
  {| historyGroups := historyGroups s;
     conversations := conversations s;
     activeConversationId := activeConversationId s;
     activeConversationTitle := activeConversationTitle s;
     chatCounter := chatCounter s;
     composerAttachments := composerAttachments s;
     copiedMessageId := copiedMessageId s;
     input := input s;
     isGenerating := isGenerating s;
     selectedProviderId := selectedProviderId s;
     selectedModelId := selectedModelId s;
     isSidebarOpen := isSidebarOpen s;
     draws := f (draws s);
     now := now s;
     timers := timers s;
     nextTimer := nextTimer s;
     reads := reads s;
     nextRead := nextRead s |}.

Definition setNow (f : nat -> nat) (s : state) : state :=
  {| historyGroups := historyGroups s;
     conversations := conversations s;
     activeConversationId := activeConversationId s;
     activeConversationTitle := activeConversationTitle s;
     chatCounter := chatCounter s;
     composerAttachments := composerAttachments s;
     copiedMessageId := copiedMessageId s;
     input := input s;
     isGenerating := isGenerating s;
     selectedProviderId := selectedProviderId s;
     selectedModelId := selectedModelId s;
     isSidebarOpen := isSidebarOpen s;
     draws := draws s;
     now := f (now s);
     timers := timers s;
     nextTimer := nextTimer s;
     reads := reads s;
     nextRead := nextRead s |}.

Definition setTimers (f : gmap nat Timer -> gmap nat Timer) (s : state) : state :=
  {| historyGroups := historyGroups s;
     conversations := conversations s;
     activeConversationId := activeConversationId s;
     activeConversationTitle := activeConversationTitle s;
     chatCounter := chatCounter s;
     composerAttachments := composerAttachments s;
     copiedMessageId := copiedMessageId s;
     input := input s;
     isGenerating := isGenerating s;
     selectedProviderId := selectedProviderId s;
     selectedModelId := selectedModelId s;
     isSidebarOpen := isSidebarOpen s;
     draws := draws s;
     now := now s;
     timers := f (timers s);
     nextTimer := nextTimer s;
     reads := reads s;
     nextRead := nextRead s |}.

Definition setNextTimer (f : nat -> nat) (s : state) : state :=
  {| historyGroups := historyGroups s;
     conversations := conversations s;
     activeConversationId := activeConversationId s;
     activeConversationTitle := activeConversationTitle s;
     chatCounter := chatCounter s;
     composerAttachments := composerAttachments s;
     copiedMessageId := copiedMessageId s;
     input := input s;
     isGenerating := isGenerating s;
     selectedProviderId := selectedProviderId s;
     selectedModelId := selectedModelId s;
     isSidebarOpen := isSidebarOpen s;
     draws := draws s;
     now := now s;
     timers := timers s;
     nextTimer := f (nextTimer s);
     reads := reads s;
     nextRead := nextRead s |}.

Definition setReads (f : gmap nat File -> gmap nat File) (s : state) : state :=
  {| historyGroups := historyGroups s;
     conversations := conversations s;
     activeConversationId := activeConversationId s;
     activeConversationTitle := activeConversationTitle s;
     chatCounter := chatCounter s;
     composerAttachments := composerAttachments s;
     copiedMessageId := copiedMessageId s;
     input := input s;
     isGenerating := isGenerating s;
     selectedProviderId := selectedProviderId s;
     selectedModelId := selectedModelId s;
     isSidebarOpen := isSidebarOpen s;
     draws := draws s;
     now := now s;
     timers := timers s;
     nextTimer := nextTimer s;
     reads := f (reads s);
     nextRead := nextRead s |}.

Definition setNextRead (f : nat -> nat) (s : state) : state :=
  {| historyGroups := historyGroups s;
     conversations := conversations s;
     activeConversationId := activeConversationId s;
     activeConversationTitle := activeConversationTitle s;
     chatCounter := chatCounter s;
     composerAttachments := composerAttachments s;
     copiedMessageId := copiedMessageId s;
     input := input s;
     isGenerating := isGenerating s;
     selectedProviderId := selectedProviderId s;
     selectedModelId := selectedModelId s;
     isSidebarOpen := isSidebarOpen s;
     draws := draws s;
     now := now s;
     timers := timers s;
     nextTimer := nextTimer s;
     reads := reads s;
     nextRead := f (nextRead s) |}.

(** [s |> f]: the next state update of a handler. *)
Notation "s |> f" := (f s) (at level 45, left associativity, only parsing).

(** [random36 k]: what the [k]-th evaluation of [Math.random().toString(36)]
    returns. The component is parametric in it. *)
Class Random := random36 : nat -> jsstring.

Section Chatbot.

Context {rng : Random}.

Definition createId : Rand jsstring :=
  fun k => (createId_of (random36 k), S k).

Definition createInitialMessages : Rand (list ConversationMessage) :=
  mapR (fun template =>
          let* i := createId in
          ret {| m_id := i;
                 m_role := t_role template;
                 m_name := t_name template;
                 m_avatarFallback := t_avatarFallback template;
                 m_avatarUrl := None;
                 m_content := t_content template;
                 m_markdown := t_markdown template;
                 m_attachments :=
                   match t_role template with user => Some [] | assistant => None end;
                 m_reaction := None |})
       messageTemplates.

Definition placeholderContent (title preview : jsstring) : jsstring :=
  join nl
    [ lit "This is a placeholder view for **" ++ title ++ lit "**.";
      [];
      preview;
      [];
      lit "Load real messages here by persisting conversations and hydrating them when the user opens the thread." ].

Definition createPlaceholderConversation (title preview : jsstring)
  : Rand (list ConversationMessage) :=
  let* i := createId in
  ret [ {| m_id := i;
           m_role := assistant;
           m_name := lit "Nova";
           m_avatarFallback := lit "NO";
           m_avatarUrl := None;
           m_content := placeholderContent title preview;
           m_markdown := Some true;
           m_attachments := None;
           m_reaction := None |} ].

(** [{ ...conversation }] *)
Definition spreadConversation (c : HistoryConversation) : HistoryConversation :=
  {| h_id := h_id c; h_title := h_title c;
     h_preview := h_preview c; h_timestamp := h_timestamp c |}.

Definition cloneHistoryGroups (groups : list HistoryGroup) : list HistoryGroup :=
  map (fun section =>
         {| g_label := g_label section;
            g_conversations := map spreadConversation (g_conversations section) |})
      groups.

(** [groups[0]?.conversations[0]?.id] *)
Definition primaryIdOf (groups : list HistoryGroup) : option jsstring :=
  match groups with
  | [] => None
  | section :: _ =>
      match g_conversations section with
      | [] => None
      | c :: _ => Some (h_id c)
      end
  end.

(** The two nested [forEach] loops of [buildInitialConversationMap], one
    conversation at a time. *)
Definition seedConversation (primaryId : option jsstring)
    (map : gmap jsstring (list ConversationMessage)) (conversation : HistoryConversation)
  : Rand (gmap jsstring (list ConversationMessage)) :=
  if bool_decide (Some (h_id conversation) = primaryId) then
    let* msgs := createInitialMessages in
    ret (<[h_id conversation := msgs]> map)
  else
    let* msgs := createPlaceholderConversation (h_title conversation) (h_preview conversation) in
    ret (<[h_id conversation := msgs]> map).

Fixpoint foldR {A B} (f : B -> A -> Rand B) (l : list A) (b : B) : Rand B :=
  match l with
  | [] => ret b
  | a :: l' => let* b' := f b a in foldR f l' b'
  end.

Definition buildInitialConversationMap (groups : list HistoryGroup)
  : Rand (gmap jsstring (list ConversationMessage)) :=
  let primaryId := primaryIdOf groups in
  foldR (fun map section => foldR (seedConversation primaryId) (g_conversations section) map)
        groups ∅.

Fixpoint findConversationTitle (groups : list HistoryGroup) (conversationId : jsstring)
  : jsstring :=
  match groups with
  | [] => lit "Untitled chat"
  | section :: rest =>
      match List.find (fun entry => bool_decide (h_id entry = conversationId))
                      (g_conversations section) with
      | Some conversation => h_title conversation
      | None => findConversationTitle rest conversationId
      end
  end.

Definition truncateText (text : jsstring) : jsstring :=
  if (length text <=? 80)%nat then text else slice 0 80 text ++ ellipsis.

(** [`${n}`] for a non-negative integer given in binary. *)
Definition N_toString (n : N) : jsstring :=
  lit (NilZero.string_of_uint (N.to_uint n)).

(** [(num / den).toFixed(1)] for non-negative integers with [den] a power of
    two and [num] below 2^53: the quotient is then exact in binary64, and
    [toFixed] prints the integer number of tenths that is nearest to it (the
    larger one on a tie), with the last digit after the point. *)
Definition toFixed1 (num den : N) : jsstring :=
  let tenths := ((20 * num + den) / (2 * den))%N in
  N_toString (tenths / 10) ++ lit "." ++ N_toString (tenths mod 10).

(** [formatFileSize]; [size] is a [File]'s size, a non-negative integer. *)
Definition formatFileSize (size : N) : jsstring :=
  if (size <? 1024)%N then N_toString size ++ lit " B"
  else if (size <? 1024 * 1024)%N then toFixed1 size 1024 ++ lit " KB"
  else toFixed1 size (1024 * 1024) ++ lit " MB".

(** [array.findIndex(p)], [None] standing for [-1]. *)
Fixpoint findIndex {A} (p : A -> bool) (l : list A) : option nat :=
  match l with
  | [] => None
  | a :: l' => if p a then Some 0%nat else S <$> findIndex p l'
  end.

(** The [for ... of next] loop of [promoteConversation]: in the first section
    that holds [conversationId], the first such entry is spliced out and the
    loop stops. Returns the sections after the loop and [existing]. *)
Fixpoint extractConversation (next : list HistoryGroup) (conversationId : jsstring)
  : list HistoryGroup * option HistoryConversation :=
  match next with
  | [] => ([], None)
  | section :: rest =>
      match findIndex (fun c => bool_decide (h_id c = conversationId))
                      (g_conversations section) with
      | Some index =>
          ({| g_label := g_label section;
              g_conversations := delete index (g_conversations section) |} :: rest,
           g_conversations section !! index)
      | None =>
          let '(rest', existing) := extractConversation rest conversationId in
          (section :: rest', existing)
      end
  end.

Definition promoteConversation (groups : list HistoryGroup) (conversationId : jsstring)
    (updater : option HistoryConversation -> HistoryConversation)
  : list HistoryGroup :=
  let '(next, existing) := extractConversation (cloneHistoryGroups groups) conversationId in
  let updated := updater existing in
  let next :=
    match next with
    | [] => [ {| g_label := lit "Today"; g_conversations := [] |} ]
    | _ => next
    end in
  match next with
  | first :: rest =>
      {| g_label := g_label first;
         g_conversations :=
           updated :: List.filter (fun c => negb (bool_decide (h_id c = h_id updated)))
                                  (g_conversations first) |} :: rest
  | [] => []
  end.

(** ** The component's derived values and handlers *)

Definition seedActiveConversationId : jsstring :=
  match primaryIdOf historySeed with
  | Some i => i
  | None => fst (createId 0%nat)
  end.

Definition seedActiveConversationTitle : jsstring :=
  findConversationTitle historySeed seedActiveConversationId.

(** [providers.find(...) ?? providers[0]] *)
Definition activeProvider (s : state) : ProviderOption :=
  match List.find (fun provider => bool_decide (p_id provider = selectedProviderId s)) providers with
  | Some provider => provider
  | None => provider0
  end.

(** [models[0]] of a provider; every provider of the table has one. *)
Definition firstModel (provider : ProviderOption) : ModelOption :=
  match models provider with
  | model :: _ => model
  | [] => {| mo_id := []; mo_label := [] |}
  end.

Definition activeModel (s : state) : ModelOption :=
  match List.find (fun model => bool_decide (mo_id model = selectedModelId s))
                  (models (activeProvider s)) with
  | Some model => model
  | None => firstModel (activeProvider s)
  end.

(** [conversations[activeConversationId] ?? []] *)
Definition messages (s : state) : list ConversationMessage :=
  default [] (conversations s !! activeConversationId s).

Definition hasPendingInput (s : state) : bool :=
  (0 <? length (trim (input s)))%nat || (0 <? length (composerAttachments s))%nat.

Definition updateConversationMessages (conversationId : jsstring)
    (updater : list ConversationMessage -> list ConversationMessage) (s : state) : state :=
  s |> setConversations (fun previous =>
         let current := default [] (previous !! conversationId) in
         let updated := updater current in
         <[conversationId := updated]> previous).

Definition refreshHistoryPreview (conversationId preview : jsstring) (title : option jsstring)
    (s : state) : state :=
  s |> setHistoryGroups (fun previous =>
         promoteConversation previous conversationId (fun existing =>
           {| h_id := match existing with Some e => h_id e | None => conversationId end;
              h_title := match title with
                         | Some t => t
                         | None => match existing with
                                   | Some e => h_title e
                                   | None => lit "Untitled chat"
                                   end
                         end;
              h_preview := truncateText preview;
              h_timestamp := lit "Just now" |})).

(** [handlePasteImages] and [handleImageUpload]: every file of an image type is
    handed to a [FileReader]; nothing else happens until it has loaded. *)
Definition startReads (files : list File) (s : state) : state :=
  foldl (fun s file =>
           s |> setReads (fun pending => <[nextRead s := file]> pending)
             |> setNextRead S)
        s (List.filter (fun file => startsWith (lit "image/") (f_type file)) files).

(** [reader.onload] of [addAttachmentFromFile]; [result] is [None] when
    [reader.result] is not a string. *)
Definition addAttachmentFromFile (file : File) (result : option jsstring) (s : state) : state :=
  match result with
  | None => s
  | Some preview =>
      let '(i, k) := createId (draws s) in
      s |> setDraws (fun _ => k)
        |> setComposerAttachments (fun previous =>
             previous ++
             [ {| a_id := i;
                  a_name := or_else (f_name file)
                              (lit "pasted-image-" ++ Number_toString (length previous + 1)
                                 ++ lit ".png");
                  a_type := f_type file;
                  a_size := f_size file;
                  a_preview := preview |} ])
  end.

Definition readerLoaded (r : nat) (result : option jsstring) (s : state) : state :=
  match reads s !! r with
  | None => s
  | Some file => s |> setReads (delete r) |> addAttachmentFromFile file result
  end.

Definition handleRemoveAttachment (attachmentId : jsstring) (s : state) : state :=
  s |> setComposerAttachments (fun previous =>
         List.filter (fun attachment => negb (bool_decide (a_id attachment = attachmentId)))
                     previous).

(** [handleCopy] after [navigator.clipboard.writeText] has resolved ([ok]) or
    rejected. *)
Definition handleCopy (message : ConversationMessage) (ok : bool) (s : state) : state :=
  if ok then
    s |> setCopiedMessageId (fun _ => Some (m_id message))
      |> setTimers (fun pending =>
           <[nextTimer s := {| due := (now s + 2000)%nat; callback := ClearCopied (m_id message) |}]>
             pending)
      |> setNextTimer S
  else
    s |> setCopiedMessageId (fun _ => None).

Definition toggleMessage (messageId : jsstring) (reaction : Reaction)
    (message : ConversationMessage) : ConversationMessage :=
  if bool_decide (m_id message = messageId) then
    {| m_id := m_id message;
       m_role := m_role message;
       m_name := m_name message;
       m_avatarFallback := m_avatarFallback message;
       m_avatarUrl := m_avatarUrl message;
       m_content := m_content message;
       m_markdown := m_markdown message;
       m_attachments := m_attachments message;
       m_reaction := if bool_decide (m_reaction message = Some reaction)
                     then None else Some reaction |}
  else message.

Definition toggleReaction (messageId : jsstring) (reaction : Reaction) (s : state) : state :=
  let conversationId := activeConversationId s in
  s |> updateConversationMessages conversationId (fun current =>
         map (toggleMessage messageId reaction) current).

(** [{ ...attachment }] *)
Definition spreadAttachment (a : Attachment) : Attachment :=
  {| a_id := a_id a; a_name := a_name a; a_type := a_type a;
     a_size := a_size a; a_preview := a_preview a |}.

Definition plural (n : nat) : jsstring :=
  if (1 <? n)%nat then lit "s" else [].

Definition attachmentsSummaryOf (attachments : list Attachment) : option jsstring :=
  if (0 <? length attachments)%nat
  then Some (lit "Shared " ++ Number_toString (length attachments) ++ lit " attachment"
               ++ plural (length attachments))
  else None.

(** [prompt || attachmentsSummary || "Sent a message"] *)
Definition userContentOf (prompt : jsstring) (attachmentsSummary : option jsstring) : jsstring :=
  or_else prompt (opt_or_else attachmentsSummary (lit "Sent a message")).

Definition assistantContentOf (provider : ProviderOption) (model : ModelOption)
    (attachments : list Attachment) : jsstring :=
  let providerSummary := p_label provider ++ lit " " ++ bullet ++ lit " " ++ mo_label model in
  join (nl ++ nl)
    (filter_Boolean
       [ Some (lit "Pretending to call " ++ providerSummary ++ lit ".");
         if (0 <? length attachments)%nat
         then Some (lit "I spotted " ++ Number_toString (length attachments) ++ lit " attachment"
                      ++ plural (length attachments)
                      ++ lit ". Replace this with your vision/tool call.")
         else None;
         Some (lit "Swap this helper with your real API handler and stream tokens into the conversation.") ]).

Definition userMessageOf (i content : jsstring) (attachments : list Attachment)
  : ConversationMessage :=
  {| m_id := i;
     m_role := user;
     m_name := lit "You";
     m_avatarFallback := lit "YO";
     m_avatarUrl := None;
     m_content := content;
     m_markdown := None;
     m_attachments := match attachments with [] => None | _ => Some attachments end;
     m_reaction := None |}.

Definition assistantMessageOf (i content : jsstring) : ConversationMessage :=
  {| m_id := i;
     m_role := assistant;
     m_name := lit "Nova";
     m_avatarFallback := lit "NO";
     m_avatarUrl := None;
     m_content := content;
     m_markdown := Some true;
     m_attachments := None;
     m_reaction := None |}.

(** The callback that [handleSubmit] hands to [window.setTimeout]. *)
Definition replyArrives (conversationId : jsstring) (assistantMessage : ConversationMessage)
    (s : state) : state :=
  s |> updateConversationMessages conversationId (fun current => current ++ [assistantMessage])
    |> setIsGenerating (fun _ => false).

Definition handleSubmit (s : state) : state :=
  if negb (hasPendingInput s) || isGenerating s then s else
  let conversationId := activeConversationId s in
  let conversationTitle := activeConversationTitle s in
  let prompt := trim (input s) in
  let attachments := map spreadAttachment (composerAttachments s) in
  let attachmentsSummary := attachmentsSummaryOf attachments in
  let userContent := userContentOf prompt attachmentsSummary in
  let '(userId, k) := createId (draws s) in
  let userMessage := userMessageOf userId userContent attachments in
  let '(assistantId, k) := createId k in
  let assistantMessage :=
    assistantMessageOf assistantId
      (assistantContentOf (activeProvider s) (activeModel s) attachments) in
  s |> setDraws (fun _ => k)
    |> updateConversationMessages conversationId (fun current => current ++ [userMessage])
    |> refreshHistoryPreview conversationId
         (userContentOf prompt attachmentsSummary) (Some conversationTitle)
    |> setComposerAttachments (fun _ => [])
    |> setInput (fun _ => [])
    |> setCopiedMessageId (fun _ => None)
    |> setIsGenerating (fun _ => true)
    |> setTimers (fun pending =>
         <[nextTimer s := {| due := (now s + 600)%nat;
                             callback := Reply conversationId assistantMessage |}]> pending)
    |> setNextTimer S.

Definition handleNewChat (s : state) : state :=
  let '(conversationId, k) := createId (draws s) in
  let conversationTitle := lit "Untitled chat " ++ Number_toString (chatCounter s) in
  let '(initialMessages, k) := createInitialMessages k in
  s |> setDraws (fun _ => k)
    |> setChatCounter (fun count => (count + 1)%nat)
    |> setConversations (fun previous => <[conversationId := initialMessages]> previous)
    |> setActiveConversationId (fun _ => conversationId)
    |> setActiveConversationTitle (fun _ => conversationTitle)
    |> setComposerAttachments (fun _ => [])
    |> setInput (fun _ => [])
    |> setCopiedMessageId (fun _ => None)
    |> setIsGenerating (fun _ => false)
    |> setIsSidebarOpen (fun _ => false)
    |> setHistoryGroups (fun previous =>
         promoteConversation previous conversationId (fun _ =>
           {| h_id := conversationId;
              h_title := conversationTitle;
              h_preview := lit "Say hello to Nova to get started.";
              h_timestamp := lit "Just now" |})).

(** The [setConversations] updater of [handleSelectConversation]. An array is
    truthy even when empty, so the test is on the presence of the key. *)
Definition materialize (conversation : HistoryConversation) (s : state) : state :=
  match conversations s !! h_id conversation with
  | Some _ => s
  | None =>
      let '(placeholder, k) :=
        createPlaceholderConversation (h_title conversation) (h_preview conversation) (draws s) in
      s |> setDraws (fun _ => k)
        |> setConversations (fun previous => <[h_id conversation := placeholder]> previous)
  end.

Definition handleSelectConversation (conversation : HistoryConversation) (s : state) : state :=
  s |> setActiveConversationId (fun _ => h_id conversation)
    |> setActiveConversationTitle (fun _ => h_title conversation)
    |> setIsSidebarOpen (fun _ => false)
    |> setComposerAttachments (fun _ => [])
    |> setInput (fun _ => [])
    |> setCopiedMessageId (fun _ => None)
    |> setIsGenerating (fun _ => false)
    |> materialize conversation
    |> setHistoryGroups (fun previous =>
         promoteConversation previous (h_id conversation) (fun existing =>
           match existing with
           | Some e => e
           | None => spreadConversation conversation
           end)).

(** [setSelectedProviderId] followed by the effect that depends on it. *)
Definition selectProvider (providerId : jsstring) (s : state) : state :=
  if bool_decide (providerId = selectedProviderId s) then s else
  let s := s |> setSelectedProviderId (fun _ => providerId) in
  let provider := activeProvider s in
  s |> setSelectedModelId (fun current =>
         if existsb (fun model => bool_decide (mo_id model = current)) (models provider)
         then current else mo_id (firstModel provider)).

(** The event loop runs the callback of timer [h], once it is due. *)
Definition timeout (h : nat) (s : state) : state :=
  match timers s !! h with
  | None => s
  | Some t =>
      if (due t <=? now s)%nat then
        match callback t with
        | Reply conversationId assistantMessage =>
            s |> setTimers (delete h) |> replyArrives conversationId assistantMessage
        | ClearCopied messageId =>
            s |> setTimers (delete h)
              |> setCopiedMessageId (fun current =>
                   if bool_decide (current = Some messageId) then None else current)
        end
      else s
  end.

(** ** Events *)

Inductive event :=
| EvInput (text : jsstring)                         (* onValueChange *)
| EvFiles (files : list File)                        (* paste or upload *)
| EvReaderLoad (r : nat) (result : option jsstring)  (* reader.onload *)
| EvRemoveAttachment (attachmentId : jsstring)
| EvClipboard (message : ConversationMessage) (ok : bool)
| EvReaction (messageId : jsstring) (reaction : Reaction)
| EvSubmit
| EvNewChat
| EvSelect (conversation : HistoryConversation)
| EvProvider (providerId : jsstring)
| EvModel (modelId : jsstring)
| EvSidebar (open : bool)
| EvElapse (ms : nat)                                (* time passes *)
| EvTimeout (h : nat).                               (* a timer callback runs *)

Definition step (s : state) (e : event) : state :=
  match e with
  | EvInput text => s |> setInput (fun _ => text)
  | EvFiles files => s |> startReads files
  | EvReaderLoad r result => s |> readerLoaded r result
  | EvRemoveAttachment attachmentId => s |> handleRemoveAttachment attachmentId
  | EvClipboard message ok => s |> handleCopy message ok
  | EvReaction messageId reaction => s |> toggleReaction messageId reaction
  | EvSubmit => s |> handleSubmit
  | EvNewChat => s |> handleNewChat
  | EvSelect conversation => s |> handleSelectConversation conversation
  | EvProvider providerId => s |> selectProvider providerId
  | EvModel modelId => s |> setSelectedModelId (fun _ => modelId)
  | EvSidebar open => s |> setIsSidebarOpen (fun _ => open)
  | EvElapse ms => s |> setNow (fun t => (t + ms)%nat)
  | EvTimeout h => s |> timeout h
  end.

Definition run (s : state) (events : list event) : state := foldl step s events.

(** The state after the first render. *)
Definition init : state :=
  let '(initialMap, k) := buildInitialConversationMap historySeed 0%nat in
  {| historyGroups := cloneHistoryGroups historySeed;
     conversations := initialMap;
     activeConversationId := seedActiveConversationId;
     activeConversationTitle := seedActiveConversationTitle;
     chatCounter :=
       (foldl (fun total section => total + length (g_conversations section)) 0 historySeed + 1)%nat;
     composerAttachments := [];
     copiedMessageId := None;
     input := [];
     isGenerating := false;
     selectedProviderId := p_id provider0;
     selectedModelId := mo_id (firstModel provider0);
     isSidebarOpen := false;
     draws := k;
     now := 0%nat;
     timers := ∅;
     nextTimer := 0%nat;
     reads := ∅;
     nextRead := 0%nat |}.

(** ** Vocabulary of the statements *)

(** [handleSubmit] passes its guard. *)
Definition accepted (s : state) : Prop :=
  hasPendingInput s = true /\ isGenerating s = false.

(** The [assistantMessage] that [handleSubmit] builds in state [s]. *)
Definition submittedReply (s : state) : ConversationMessage :=
  assistantMessageOf (createId_of (random36 (S (draws s))))
    (assistantContentOf (activeProvider s) (activeModel s)
       (map spreadAttachment (composerAttachments s))).

(** The [userMessage] that [handleSubmit] builds in state [s]. *)
Definition submittedMessage (s : state) : ConversationMessage :=
  let attachments := map spreadAttachment (composerAttachments s) in
  userMessageOf (createId_of (random36 (draws s)))
    (userContentOf (trim (input s)) (attachmentsSummaryOf attachments)) attachments.

(** [{ ...message, reaction }] *)
Definition withReaction (reaction : option Reaction) (message : ConversationMessage)
  : ConversationMessage :=
  {| m_id := m_id message;
     m_role := m_role message;
     m_name := m_name message;
     m_avatarFallback := m_avatarFallback message;
     m_avatarUrl := m_avatarUrl message;
     m_content := m_content message;
     m_markdown := m_markdown message;
     m_attachments := m_attachments message;
     m_reaction := reaction |}.

Definition isReply (c : Callback) : bool :=
  match c with Reply _ _ => true | ClearCopied _ => false end.

(** No assistant reply is waiting for its timer. *)
Definition noReplyPending (s : state) : Prop :=
  map_Forall (fun _ t => isReply (callback t) = false) (timers s).

(** The events that reset the generation flag from outside the submit
    protocol: [handleSelectConversation] and [handleNewChat]. *)
Definition navigates (e : event) : bool :=
  match e with EvSelect _ | EvNewChat => true | _ => false end.

(** While reply [h] is pending it is the only pending reply and the flag is
    set. *)
Definition awaiting (h : nat) (s : state) : Prop :=
  (h < nextTimer s)%nat /\
  (timers s !! h = None \/
   (isGenerating s = true /\
    forall h' t, timers s !! h' = Some t -> isReply (callback t) = true -> h' = h)).

(** Every identifier of the history index, group after group. *)
Definition all_ids (groups : list HistoryGroup) : list jsstring :=
  concat (map (fun section => map h_id (g_conversations section)) groups).

(** [existing] of [promoteConversation]: the first entry with this
    identifier, in group order. *)
Definition findSummary (groups : list HistoryGroup) (conversationId : jsstring)
  : option HistoryConversation :=
  snd (extractConversation (cloneHistoryGroups groups) conversationId).

(** A call [promoteConversation(groups, conversationId, updater)]. *)
Definition promoteCall : Type :=
  jsstring * (option HistoryConversation -> HistoryConversation).

Definition promoteAll (groups : list HistoryGroup) (calls : list promoteCall)
  : list HistoryGroup :=
  foldl (fun groups call => promoteConversation groups (fst call) (snd call)) groups calls.

(** The updater of the call, given what the index holds for the promoted
    conversation ([existing], or none), returns a summary of that
    conversation. *)
Definition keepsId (groups : list HistoryGroup) (call : promoteCall) : Prop :=
  h_id (snd call (findSummary groups (fst call))) = fst call.

(** Every call of the sequence does so on the index it is applied to. *)
Fixpoint keepIds (groups : list HistoryGroup) (calls : list promoteCall) : Prop :=
  match calls with
  | [] => True
  | call :: calls' =>
      keepsId groups call
      /\ keepIds (promoteConversation groups (fst call) (snd call)) calls'
  end.

(** How many groups hold the identifier. *)
Definition groupsHolding (groups : list HistoryGroup) (conversationId : jsstring) : nat :=
  length (List.filter
            (fun section =>
               existsb (fun c => bool_decide (h_id c = conversationId)) (g_conversations section))
            groups).

(** Only image files are being read or staged. *)
Definition imagesOnly (s : state) : Prop :=
  map_Forall (fun _ file => startsWith (lit "image/") (f_type file) = true) (reads s)
  /\ Forall (fun a => startsWith (lit "image/") (a_type a) = true) (composerAttachments s).

(** Every conversation of the history index, and the active one, has its
    entry in the store. *)
Definition storeCovers (s : state) : Prop :=
  (forall x, x ∈ all_ids (historyGroups s) -> is_Some (conversations s !! x))
  /\ is_Some (conversations s !! activeConversationId s).

(** The handles of the pending timers are below the next handle, and the
    generation flag is set only while a reply is pending. *)
Definition flagBacked (s : state) : Prop :=
  (forall h, (nextTimer s <= h)%nat -> timers s !! h = None)
  /\ (isGenerating s = true ->
      exists h t, timers s !! h = Some t /\ isReply (callback t) = true).

(** The messages that [buildInitialConversationMap] gives a conversation:
    the introductory messages for the primary one, one placeholder message
    for any other, with identifiers drawn from some position on. *)
Definition seededWith (primaryId : option jsstring) (c : HistoryConversation)
    (msgs : list ConversationMessage) : Prop :=
  exists k,
    msgs = if bool_decide (Some (h_id c) = primaryId)
           then fst (createInitialMessages k)
           else fst (createPlaceholderConversation (h_title c) (h_preview c) k).

(** The summary that [handleSubmit] promotes. *)
Definition submittedSummary (s : state) : HistoryConversation :=
  {| h_id := activeConversationId s;
     h_title := activeConversationTitle s;
     h_preview := truncateText (m_content (submittedMessage s));
     h_timestamp := lit "Just now" |}.

(** The events on the composer's attachment buffer. *)
Definition onBuffer (e : event) : bool :=
  match e with
  | EvFiles _ | EvReaderLoad _ _ | EvRemoveAttachment _ => true
  | _ => false
  end.

End Chatbot.

Arguments lit : simpl never.
Arguments N_toString : simpl never.
Arguments Number_toString : simpl never.
Arguments trim : simpl never.
Arguments truncateText : simpl never.
Arguments promoteConversation : simpl never.
Arguments createInitialMessages : simpl never.
Arguments createPlaceholderConversation : simpl never.
Arguments assistantContentOf : simpl never.
Arguments userContentOf : simpl never.
Arguments attachmentsSummaryOf : simpl never.
Arguments activeProvider : simpl never.
Arguments activeModel : simpl never.
Arguments hasPendingInput : simpl never.

(** * The object store

    [promoteConversation] updates arrays and objects in place, and the
    attachment buffer hands out arrays of objects. To say which objects are
    written, the functions are modelled again over a store of objects:
    a location is an index into the store, allocation appends. A computation
    fails ([None]) where JavaScript would throw a [TypeError]. *)

Module Heap.

Abbreviation loc := nat.

Inductive obj :=
| OSummary (c : HistoryConversation)               (* { id, title, preview, timestamp } *)
| OGroup (label : jsstring) (conversations : loc)  (* { label, conversations } *)
| OArray (elems : list loc)
| OAttachment (a : Attachment).

Abbreviation heap := (list obj).

Definition M (A : Type) : Type := heap -> option (A * heap).

Definition mret {A} (a : A) : M A := fun h => Some (a, h).

Definition mfail {A} : M A := fun _ => None.

Definition mbind {A B} (m : M A) (f : A -> M B) : M B :=
  fun h => match m h with Some (a, h') => f a h' | None => None end.

Notation "'let!' x ':=' m 'in' f" := (mbind m (fun x => f))
  (at level 10, x name, m at level 100, f at level 200).

Definition alloc (o : obj) : M loc := fun h => Some (length h, h ++ [o]).

Definition load (l : loc) : M obj :=
  fun h => match h !! l with Some o => Some (o, h) | None => None end.

Definition store (l : loc) (o : obj) : M unit :=
  fun h => if (l <? length h)%nat then Some (tt, <[l := o]> h) else None.

Definition loadArray (l : loc) : M (list loc) :=
  let! o := load l in
  match o with OArray elems => mret elems | _ => mfail end.

Definition loadGroup (l : loc) : M (jsstring * loc) :=
  let! o := load l in
  match o with OGroup label conversations => mret (label, conversations) | _ => mfail end.

Definition loadSummary (l : loc) : M HistoryConversation :=
  let! o := load l in
  match o with OSummary c => mret c | _ => mfail end.

Definition loadAttachment (l : loc) : M Attachment :=
  let! o := load l in
  match o with OAttachment a => mret a | _ => mfail end.

(** [array.map(f)] for an [f] that allocates. *)
Fixpoint mapM {A B} (f : A -> M B) (l : list A) : M (list B) :=
  match l with
  | [] => mret []
  | a :: l' => let! b := f a in let! bs := mapM f l' in mret (b :: bs)
  end.

(** [array.filter(p)]: a new array of the same objects. *)
Fixpoint filterM (p : obj -> bool) (l : list loc) : M (list loc) :=
  match l with
  | [] => mret []
  | a :: l' =>
      let! o := load a in
      let! rest := filterM p l' in
      mret (if p o then a :: rest else rest)
  end.

(** *** The history index *)

(** [{ ...conversation }] *)
Definition cloneConversation (l : loc) : M loc :=
  let! c := loadSummary l in alloc (OSummary (spreadConversation c)).

Definition cloneSection (l : loc) : M loc :=
  let! section := loadGroup l in
  let! elems := loadArray (snd section) in
  let! copies := mapM cloneConversation elems in
  let! conversations' := alloc (OArray copies) in
  alloc (OGroup (fst section) conversations').

Definition cloneHistoryGroups (groups : loc) : M loc :=
  let! sections := loadArray groups in
  let! copies := mapM cloneSection sections in
  alloc (OArray copies).

Fixpoint findIndex (conversationId : jsstring) (elems : list loc) : M (option nat) :=
  match elems with
  | [] => mret None
  | l :: elems' =>
      let! c := loadSummary l in
      if bool_decide (h_id c = conversationId) then mret (Some 0%nat)
      else let! i := findIndex conversationId elems' in mret (S <$> i)
  end.

(** The [for ... of next] loop: [splice] writes the section's array. The
    result is the location of [existing]. *)
Fixpoint spliceLoop (sections : list loc) (conversationId : jsstring) : M (option loc) :=
  match sections with
  | [] => mret None
  | l :: rest =>
      let! section := loadGroup l in
      let! elems := loadArray (snd section) in
      let! i := findIndex conversationId elems in
      match i with
      | Some index =>
          let! _ := store (snd section) (OArray (delete index elems)) in
          mret (elems !! index)
      | None => spliceLoop rest conversationId
      end
  end.

Definition hasOtherId (i : jsstring) (o : obj) : bool :=
  match o with
  | OSummary c => negb (bool_decide (h_id c = i))
  | _ => true
  end.

(** [promoteConversation]; the updater is a function of the value of
    [existing], and the object it returns is taken to be a new one (an
    updater that returns [existing] itself hands back an object that the
    [splice] has just removed from the only array that held it). *)
Definition promoteConversation (groups : loc) (conversationId : jsstring)
    (updater : option HistoryConversation -> HistoryConversation) : M loc :=
  let! next := cloneHistoryGroups groups in
  let! sections := loadArray next in
  let! existingLoc := spliceLoop sections conversationId in
  let! existing :=
    match existingLoc with
    | Some l => let! c := loadSummary l in mret (Some c)
    | None => mret None
    end in
  let! updated := alloc (OSummary (updater existing)) in
  let! sections := loadArray next in
  let! _ :=
    match sections with
    | [] =>
        let! empty := alloc (OArray []) in
        let! today := alloc (OGroup (lit "Today") empty) in
        store next (OArray (sections ++ [today]))
    | _ => mret tt
    end in
  let! sections := loadArray next in
  match sections with
  | first :: _ =>
      let! section := loadGroup first in
      let! elems := loadArray (snd section) in
      let! kept := filterM (hasOtherId (h_id (updater existing))) elems in
      let! conversations' := alloc (OArray (updated :: kept)) in
      let! _ := store first (OGroup (fst section) conversations') in
      mret next
  | [] => mfail
  end.

(** What the store holds at a location, read as a value. *)
Definition readSummary (h : heap) (l : loc) : option HistoryConversation :=
  match h !! l with Some (OSummary c) => Some c | _ => None end.

Fixpoint readAll {A} (read : loc -> option A) (elems : list loc) : option (list A) :=
  match elems with
  | [] => Some []
  | l :: elems' =>
      match read l, readAll read elems' with
      | Some a, Some rest => Some (a :: rest)
      | _, _ => None
      end
  end.

Definition readConversations (h : heap) (l : loc) : option (list HistoryConversation) :=
  match h !! l with Some (OArray elems) => readAll (readSummary h) elems | _ => None end.

Definition readGroup (h : heap) (l : loc) : option HistoryGroup :=
  match h !! l with
  | Some (OGroup label conversations) =>
      match readConversations h conversations with
      | Some cs => Some {| g_label := label; g_conversations := cs |}
      | None => None
      end
  | _ => None
  end.

Definition readGroups (h : heap) (l : loc) : option (list HistoryGroup) :=
  match h !! l with Some (OArray elems) => readAll (readGroup h) elems | _ => None end.

(** *** The attachment buffer *)

(** [{ ...attachment }] *)
Definition cloneAttachment (l : loc) : M loc :=
  let! a := loadAttachment l in alloc (OAttachment (spreadAttachment a)).

(** [composerAttachments.map((attachment) => ({ ...attachment }))] *)
Definition drain (buffer : loc) : M loc :=
  let! elems := loadArray buffer in
  let! copies := mapM cloneAttachment elems in
  alloc (OArray copies).

(** The updates of the buffer; each returns the location of the new array. *)
Inductive bufferOp :=
| Stage (a : Attachment)          (* [...previous, { ... }] *)
| Remove (attachmentId : jsstring) (* previous.filter(...) *)
| Clear.                           (* [] *)

Definition keepsAttachment (attachmentId : jsstring) (o : obj) : bool :=
  match o with
  | OAttachment a => negb (bool_decide (a_id a = attachmentId))
  | _ => true
  end.

Definition applyOp (buffer : loc) (op : bufferOp) : M loc :=
  match op with
  | Stage a =>
      let! elems := loadArray buffer in
      let! l := alloc (OAttachment a) in
      alloc (OArray (elems ++ [l]))
  | Remove attachmentId =>
      let! elems := loadArray buffer in
      let! kept := filterM (keepsAttachment attachmentId) elems in
      alloc (OArray kept)
  | Clear => alloc (OArray [])
  end.

Fixpoint applyOps (buffer : loc) (ops : list bufferOp) : M loc :=
  match ops with
  | [] => mret buffer
  | op :: ops' => let! buffer' := applyOp buffer op in applyOps buffer' ops'
  end.

Definition readAttachment (h : heap) (l : loc) : option Attachment :=
  match h !! l with Some (OAttachment a) => Some a | _ => None end.

Definition readAttachments (h : heap) (l : loc) : option (list Attachment) :=
  match h !! l with Some (OArray elems) => readAll (readAttachment h) elems | _ => None end.

(** The elements of the array at a location. *)
Definition elemsAt (h : heap) (l : loc) : list loc :=
  match h !! l with Some (OArray elems) => elems | _ => [] end.

(** The clone of the index owns its cells: the array and the object of each
    section lie in consecutive, disjoint ranges of the store above [lo]. *)
Inductive owns (h : heap) : nat -> nat -> list loc -> list HistoryGroup -> Prop :=
| owns_nil lo hi : (lo <= hi)%nat -> owns h lo hi [] []
| owns_cons lo mid hi section sections g gs label conversations elems :
    h !! section = Some (OGroup label conversations) ->
    h !! conversations = Some (OArray elems) ->
    readAll (readSummary h) elems = Some (g_conversations g) ->
    label = g_label g ->
    (lo <= conversations)%nat -> (conversations < mid)%nat ->
    (lo <= section)%nat -> (section < mid)%nat -> section <> conversations ->
    owns h mid hi sections gs ->
    owns h lo hi (section :: sections) (g :: gs).

(** The summary objects of a section: the elements of its [conversations]
    array. *)
Definition conversationsAt (h : heap) (section : loc) : list loc :=
  match h !! section with
  | Some (OGroup _ conversations) => elemsAt h conversations
  | _ => []
  end.

(** The summary objects of all the sections, section after section. *)
Definition summaryCells (h : heap) (sections : list loc) : list loc :=
  concat (map (conversationsAt h) sections).

(** The summaries that [h] holds are held by [h'] too. *)
Definition keepsSummaries (h h' : heap) : Prop :=
  forall l c, h !! l = Some (OSummary c) -> h' !! l = Some (OSummary c).

(** The value of the buffer after an update. *)
Definition bufferAfter (attachments : list Attachment) (op : bufferOp) : list Attachment :=
  match op with
  | Stage a => attachments ++ [a]
  | Remove attachmentId =>
      List.filter (fun a => negb (bool_decide (a_id a = attachmentId))) attachments
  | Clear => []
  end.

End Heap.

(** ** Sample data for the examples *)

(** An oracle whose [k]-th draw prints as ["0.r"] followed by [k]. *)
Definition sample_random : Random := fun k => lit "0.r" ++ Number_toString k.

Definition week_1 : HistoryConversation :=
  {| h_id := lit "week-1"; h_title := lit "Support triage ideas";
     h_preview := lit "Generated macros for the top friction requests from this week.";
     h_timestamp := lit "3 days ago" |}.

(** The first render, then [" hello "] typed into the composer. *)
Definition sample_typed : state :=
  step (rng := sample_random) (init (rng := sample_random)) (EvInput (lit " hello ")).

Definition sample_png : File :=
  {| f_name := lit "shot.png"; f_type := lit "image/png"; f_size := 2048%N |}.

(** The first render, then one image pasted and read, no text. *)
Definition sample_pasted : state :=
  run (rng := sample_random) (init (rng := sample_random))
    [EvFiles [sample_png]; EvReaderLoad 0 (Some (lit "data:image/png;base64,AAAA"))].

(** The first render, then one image pasted, its reader still at work. *)
Definition sample_reading : state :=
  step (rng := sample_random) (init (rng := sample_random)) (EvFiles [sample_png]).

Definition sample_index : list HistoryGroup :=
  [ {| g_label := lit "A";
       g_conversations := [ {| h_id := lit "a"; h_title := lit "first"; h_preview := [];
                               h_timestamp := [] |} ] |};
    {| g_label := lit "B";
       g_conversations := [ {| h_id := lit "b"; h_title := lit "second"; h_preview := [];
                               h_timestamp := [] |} ] |} ].

(** The call of [refreshHistoryPreview] without a title. *)
Definition sample_touch (conversationId : jsstring) : promoteCall :=
  (conversationId,
   fun existing =>
     {| h_id := match existing with Some e => h_id e | None => conversationId end;
        h_title := match existing with Some e => h_title e | None => lit "Untitled chat" end;
        h_preview := lit "..."; h_timestamp := lit "Just now" |}).

(** The call of [handleSelectConversation]. *)
Definition sample_open (conversation : HistoryConversation) : promoteCall :=
  (h_id conversation,
   fun existing =>
     match existing with Some e => e | None => spreadConversation conversation end).

(** An updater that answers with a summary of another conversation. *)
Definition sample_swap : promoteCall :=
  (lit "a",
   fun _ => {| h_id := lit "b"; h_title := lit "other"; h_preview := [];
               h_timestamp := [] |}).

(** * Properties *)

Local Open Scope nat_scope.

Ltac handlers :=
  unfold handleSubmit, handleNewChat, handleSelectConversation, materialize,
    readerLoaded, addAttachmentFromFile, handleCopy, toggleReaction,
    handleRemoveAttachment, selectProvider, timeout, replyArrives,
    updateConversationMessages, refreshHistoryPreview, createId in *.

(** Projections of updated states, computed lazily. *)
(** The state is split into its fields first, so that the projections of
    a variable do not get stuck. *)
Ltac st :=
  lazy beta iota zeta delta
    [historyGroups conversations activeConversationId activeConversationTitle chatCounter
     composerAttachments copiedMessageId input isGenerating selectedProviderId
     selectedModelId isSidebarOpen draws now timers nextTimer reads nextRead
     setHistoryGroups setConversations setActiveConversationId setActiveConversationTitle
     setChatCounter setComposerAttachments setCopiedMessageId setInput setIsGenerating
     setSelectedProviderId setSelectedModelId setIsSidebarOpen setDraws setNow setTimers
     setNextTimer setReads setNextRead].

Ltac st_in H :=
  lazy beta iota zeta delta
    [historyGroups conversations activeConversationId activeConversationTitle chatCounter
     composerAttachments copiedMessageId input isGenerating selectedProviderId
     selectedModelId isSidebarOpen draws now timers nextTimer reads nextRead
     setHistoryGroups setConversations setActiveConversationId setActiveConversationTitle
     setChatCounter setComposerAttachments setCopiedMessageId setInput setIsGenerating
     setSelectedProviderId setSelectedModelId setIsSidebarOpen setDraws setNow setTimers
     setNextTimer setReads setNextRead] in H.

Ltac st_all :=
  lazy beta iota zeta delta
    [historyGroups conversations activeConversationId activeConversationTitle chatCounter
     composerAttachments copiedMessageId input isGenerating selectedProviderId
     selectedModelId isSidebarOpen draws now timers nextTimer reads nextRead
     setHistoryGroups setConversations setActiveConversationId setActiveConversationTitle
     setChatCounter setComposerAttachments setCopiedMessageId setInput setIsGenerating
     setSelectedProviderId setSelectedModelId setIsSidebarOpen setDraws setNow setTimers
     setNextTimer setReads setNextRead] in *.

Lemma startReads_frame (files : list File) (s : state) :
  exists pending n,
    startReads files s = setNextRead (fun _ => n) (setReads (fun _ => pending) s).
Proof.
  unfold startReads.
  generalize (List.filter (fun file => startsWith (lit "image/") (f_type file)) files).
  intros l. revert s. induction l as [|file l IH]; intros s; cbn [foldl].
  - exists (reads s), (nextRead s). by destruct s.
  - destruct (IH (setNextRead S (setReads (fun pending => <[nextRead s := file]> pending) s)))
      as (pending & n & ->).
    by exists pending, n.
Qed.

Ltac step_cases e s :=
  destruct e; unfold step; handlers;
  try (match goal with
       | |- context [startReads ?files s] =>
           let pending := fresh "pending" in
           let n := fresh "n" in
           destruct (startReads_frame files s) as (pending & n & ->)
       end);
  repeat case_match; destruct s; st_all.

Section Properties.

Context {rng : Random}.

(** ** Timers *)

Lemma step_nextTimer (s : state) (e : event) : nextTimer s <= nextTimer (step s e).
Proof. step_cases e s; lia. Qed.

Lemma step_now (s : state) (e : event) : now s <= now (step s e).
Proof. step_cases e s; lia. Qed.

Lemma step_timers_other (s : state) (e : event) (h : nat) :
  e <> EvTimeout h -> h < nextTimer s -> timers (step s e) !! h = timers s !! h.
Proof.
  intros He Hh.
  step_cases e s; try done;
    try (rewrite lookup_insert_ne; [done | lia]);
    try (rewrite lookup_delete_ne; [done | congruence]).
Qed.

Lemma step_timers_back (s : state) (e : event) (h : nat) (t : Timer) :
  h < nextTimer s -> timers (step s e) !! h = Some t -> timers s !! h = Some t.
Proof.
  intros Hh Hs.
  assert (e = EvTimeout h \/ e <> EvTimeout h) as [->|He].
  { destruct e; try (right; discriminate).
    destruct (decide (h0 = h)) as [->|]; [by left|right; congruence]. }
  - unfold step, timeout in Hs.
    destruct (timers s !! h) as [t'|] eqn:Ht; [|by rewrite Ht in Hs].
    destruct (due t' <=? now s); [|by rewrite Ht in Hs].
    destruct (callback t'); unfold replyArrives, updateConversationMessages in Hs;
      destruct s; st_all; by rewrite lookup_delete_eq in Hs.
  - by rewrite step_timers_other in Hs.
Qed.

Lemma run_nextTimer (events : list event) (s : state) :
  nextTimer s <= nextTimer (run s events).
Proof.
  revert s. induction events as [|e events IH]; intros s; cbn [run foldl]; [lia|].
  etrans; [apply (step_nextTimer s e)|apply IH].
Qed.

Lemma run_now (events : list event) (s : state) : now s <= now (run s events).
Proof.
  revert s. induction events as [|e events IH]; intros s; cbn [run foldl]; [lia|].
  etrans; [apply (step_now s e)|apply IH].
Qed.

Lemma run_timers_back (events : list event) (s : state) (h : nat) (t : Timer) :
  h < nextTimer s -> timers (run s events) !! h = Some t -> timers s !! h = Some t.
Proof.
  revert s. induction events as [|e events IH]; intros s Hh Hs; cbn [run foldl] in *; [done|].
  apply (step_timers_back s e); [done|].
  apply IH; [|done]. pose proof (step_nextTimer s e). lia.
Qed.

Lemma run_timers_gone (events : list event) (s : state) (h : nat) :
  h < nextTimer s -> timers s !! h = None -> timers (run s events) !! h = None.
Proof.
  intros Hh Hnone. destruct (timers (run s events) !! h) as [t|] eqn:Ht; [|done].
  apply run_timers_back in Ht; [congruence|done].
Qed.

Lemma timeout_early (s : state) (h : nat) (t : Timer) :
  timers s !! h = Some t -> now s < due t -> timeout h s = s.
Proof.
  intros Ht Hd. unfold timeout. rewrite Ht.
  destruct (due t <=? now s) eqn:E; [|done]. apply Nat.leb_le in E. lia.
Qed.

Lemma timeout_absent (s : state) (h : nat) :
  timers s !! h = None -> timeout h s = s.
Proof. intros Ht. unfold timeout. by rewrite Ht. Qed.

Lemma timeout_reply (s : state) (h : nat) (d : nat) (cid : jsstring) (m : ConversationMessage) :
  timers s !! h = Some {| due := d; callback := Reply cid m |} -> d <= now s ->
  timeout h s = replyArrives cid m (setTimers (delete h) s).
Proof.
  intros Ht Hd. unfold timeout. rewrite Ht. cbn [due callback].
  destruct (d <=? now s) eqn:E; [done|]. apply Nat.leb_gt in E. lia.
Qed.

(** ** The submit protocol *)

Lemma handleSubmit_accepted (s : state) :
  accepted s ->
  handleSubmit s =
    s |> setDraws (fun _ => S (S (draws s)))
      |> updateConversationMessages (activeConversationId s) (fun current =>
           current ++ [submittedMessage s])
      |> refreshHistoryPreview (activeConversationId s)
           (m_content (submittedMessage s)) (Some (activeConversationTitle s))
      |> setComposerAttachments (fun _ => [])
      |> setInput (fun _ => [])
      |> setCopiedMessageId (fun _ => None)
      |> setIsGenerating (fun _ => true)
      |> setTimers (fun pending =>
           <[nextTimer s :=
               {| due := now s + 600;
                  callback := Reply (activeConversationId s) (submittedReply s) |}]>
             pending)
      |> setNextTimer S.
Proof.
  intros [Hp Hg]. unfold handleSubmit. rewrite Hp, Hg. reflexivity.
Qed.

Lemma handleSubmit_rejected (s : state) :
  hasPendingInput s = false \/ isGenerating s = true -> handleSubmit s = s.
Proof.
  intros [H|H]; unfold handleSubmit; rewrite H; [done|].
  by destruct (hasPendingInput s).
Qed.

Lemma handleSubmit_timer (s : state) :
  accepted s ->
  timers (handleSubmit s) !! nextTimer s =
    Some {| due := now s + 600;
            callback := Reply (activeConversationId s) (submittedReply s) |}
  /\ nextTimer (handleSubmit s) = S (nextTimer s).
Proof.
  intros Ha. rewrite handleSubmit_accepted by done.
  unfold refreshHistoryPreview, updateConversationMessages. destruct s; st.
  by rewrite lookup_insert_eq.
Qed.

Lemma pending_reply_is_submitted (s : state) (events : list event) :
  accepted s ->
  is_Some (timers (run (handleSubmit s) events) !! nextTimer s) ->
  timers (run (handleSubmit s) events) !! nextTimer s =
    Some {| due := now s + 600;
            callback := Reply (activeConversationId s) (submittedReply s) |}.
Proof.
  intros Ha [t Ht]. destruct (handleSubmit_timer s Ha) as [Hs Hn].
  pose proof (run_timers_back events (handleSubmit s) (nextTimer s) t) as Hb.
  rewrite Hn in Hb. specialize (Hb ltac:(lia) Ht). congruence.
Qed.

Lemma replyArrives_conversations (cid : jsstring) (m : ConversationMessage) (s : state) :
  conversations (replyArrives cid m s) =
    <[cid := default [] (conversations s !! cid) ++ [m]]> (conversations s)
  /\ isGenerating (replyArrives cid m s) = false
  /\ timers (replyArrives cid m s) = timers s
  /\ nextTimer (replyArrives cid m s) = nextTimer s.
Proof. unfold replyArrives, updateConversationMessages. by destruct s. Qed.

(** C2. An accepted submit schedules one reply, due 600 ms later, for the
    conversation that is active at that moment. Whatever happens meanwhile
    (the user may select another conversation), as long as the reply is
    pending its callback does nothing before it is due; once due, it appends
    exactly the assistant message built at submit time at the end of that
    conversation, leaves every other conversation as it is, resets the
    generation flag, and never runs a second time. *)
Theorem reply_lands_where_submitted (s : state) :
  accepted s ->
  let h := nextTimer s in
  let cid := activeConversationId s in
  timers (handleSubmit s) !! h =
    Some {| due := now s + 600; callback := Reply cid (submittedReply s) |}
  /\ m_role (submittedReply s) = assistant
  /\ forall events : list event,
       let s2 := run (handleSubmit s) events in
       is_Some (timers s2 !! h) ->
       (now s2 < now s + 600 -> step s2 (EvTimeout h) = s2)
       /\ (now s + 600 <= now s2 ->
           let s3 := step s2 (EvTimeout h) in
           conversations s3 =
             <[cid := default [] (conversations s2 !! cid) ++ [submittedReply s]]>
               (conversations s2)
           /\ isGenerating s3 = false
           /\ forall events' : list event,
                step (run s3 events') (EvTimeout h) = run s3 events').
Proof.
  intros Ha h cid. split; [apply (handleSubmit_timer s Ha)|]. split; [done|].
  intros events s2 Hp.
  pose proof (pending_reply_is_submitted s events Ha Hp) as Ht. fold s2 h cid in Ht.
  split.
  - intros Hearly. unfold step. by apply (timeout_early s2 h _ Ht).
  - intros Hlate s3. subst s3. unfold step. rewrite (timeout_reply s2 h _ _ _ Ht Hlate).
    destruct (replyArrives_conversations cid (submittedReply s) (setTimers (delete h) s2))
      as (Hc & Hg & Htm & Hn).
    split; [by rewrite Hc; destruct s2|]. split; [done|].
    intros events'. apply timeout_absent, run_timers_gone.
    + rewrite Hn. destruct (handleSubmit_timer s Ha) as [_ Hn'].
      pose proof (run_nextTimer events (handleSubmit s)) as Hm. fold s2 in Hm.
      replace (nextTimer (setTimers (delete h) s2)) with (nextTimer s2) by (by destruct s2).
      unfold h. lia.
    + rewrite Htm. destruct s2; st. apply lookup_delete_eq.
Qed.

Lemma awaiting_step (h : nat) (s : state) (e : event) :
  navigates e = false -> awaiting h s -> awaiting h (step s e).
Proof.
  intros Hnav [Hh Hinv]. split; [pose proof (step_nextTimer s e); lia|].
  destruct Hinv as [Hgone|[Hgen Honly]].
  { left. destruct (timers (step s e) !! h) eqn:E; [|done].
    apply step_timers_back in E; [congruence|done]. }
  step_cases e s; try discriminate Hnav; try (right; split; [done|]; done).
  - (* the clipboard write resolved *)
    right. split; [done|]. intros h' t. rewrite lookup_insert. case_decide.
    + intros [= <-]. discriminate.
    + apply Honly.
  - (* a submit, while generating *)
    subst. by match goal with H : negb _ || true = false |- _ =>
                rewrite orb_true_r in H end.
  - (* a reply arrives *)
    match goal with |- context [delete ?h0 _] =>
      destruct (decide (h0 = h)) as [->|Hne] end.
    + left. apply lookup_delete_eq.
    + exfalso. apply Hne. eapply Honly; [done|].
      match goal with H : callback _ = Reply _ _ |- _ => by rewrite H end.
  - (* the copied marker expires *)
    right. split; [done|]. intros h' t'.
    match goal with |- context [delete ?h0 _] =>
      destruct (decide (h0 = h')) as [->|Hne] end.
    + by rewrite lookup_delete_eq.
    + rewrite lookup_delete_ne by done. apply Honly.
Qed.

Lemma awaiting_run (h : nat) (events : list event) (s : state) :
  forallb (fun e => negb (navigates e)) events = true ->
  awaiting h s -> awaiting h (run s events).
Proof.
  revert s. induction events as [|e events IH]; intros s Hq Hs; cbn [run foldl forallb] in *;
    [done|].
  apply andb_prop in Hq as [He Hq]. apply IH; [done|].
  apply awaiting_step; [by destruct (navigates e)|done].
Qed.

(** C1, as the code has it. When no earlier reply is pending, from an
    accepted submit on and as long as its reply is pending, the generation
    flag is true and a further submit changes nothing, through every sequence
    of events in which the user neither selects a conversation nor starts a
    new chat. *)
Theorem flag_held_until_reply (s : state) (events : list event) :
  accepted s -> noReplyPending s ->
  forallb (fun e => negb (navigates e)) events = true ->
  let s2 := run (handleSubmit s) events in
  is_Some (timers s2 !! nextTimer s) ->
  isGenerating s2 = true /\ step s2 EvSubmit = s2.
Proof.
  intros Ha Hnone Hq s2 [t Ht].
  assert (awaiting (nextTimer s) (handleSubmit s)) as Hw.
  { destruct (handleSubmit_timer s Ha) as [Hs Hn]. split; [lia|]. right.
    rewrite handleSubmit_accepted by done.
    unfold refreshHistoryPreview, updateConversationMessages.
    split; [by destruct s|].
    intros h' t'. replace (timers _) with
      (<[nextTimer s := {| due := now s + 600;
                           callback := Reply (activeConversationId s) (submittedReply s) |}]>
         (timers s)) by (by destruct s).
    rewrite lookup_insert. case_decide; [done|].
    intros Hl Hr. apply Hnone in Hl. congruence. }
  apply (awaiting_run _ events) in Hw; [|done]. fold s2 in Hw.
  destruct Hw as [_ [Hgone|[Hgen _]]]; [congruence|].
  split; [done|]. unfold step. apply handleSubmit_rejected. by right.
Qed.

(** ** Message contents *)

Lemma spreadAttachment_id (attachments : list Attachment) :
  map spreadAttachment attachments = attachments.
Proof. induction attachments as [|[] l IH]; cbn [map]; [done|]. by rewrite IH. Qed.

Lemma filter_Boolean_Some (part : jsstring) (rest : list (option jsstring)) :
  part <> [] -> filter_Boolean (Some part :: rest) = part :: filter_Boolean rest.
Proof. by destruct part. Qed.

Lemma lit_app_nonempty (c : ascii) (s : string) (rest : jsstring) :
  lit (String c s) ++ rest <> [].
Proof. unfold lit. cbn [list_ascii_of_string map app]. discriminate. Qed.

Lemma lit_nonempty (c : ascii) (s : string) : lit (String c s) <> [].
Proof. unfold lit. cbn [list_ascii_of_string map]. discriminate. Qed.

Lemma assistantContentOf_eq (provider : ProviderOption) (model : ModelOption)
    (attachments : list Attachment) :
  assistantContentOf provider model attachments =
    lit "Pretending to call " ++ p_label provider ++ lit " " ++ bullet ++ lit " "
      ++ mo_label model ++ lit "." ++ nl ++ nl
      ++ match attachments with
         | [] => []
         | _ => lit "I spotted " ++ Number_toString (length attachments) ++ lit " attachment"
                  ++ plural (length attachments)
                  ++ lit ". Replace this with your vision/tool call." ++ nl ++ nl
         end
      ++ lit "Swap this helper with your real API handler and stream tokens into the conversation.".
Proof.
  unfold assistantContentOf. cbv zeta.
  rewrite filter_Boolean_Some by apply lit_app_nonempty.
  destruct attachments as [|a l]; cbn [length Nat.ltb Nat.leb].
  - change (filter_Boolean (None :: ?rest)) with (filter_Boolean rest).
    rewrite filter_Boolean_Some by apply lit_nonempty.
    cbn [filter_Boolean join]. by rewrite <- !app_assoc.
  - rewrite filter_Boolean_Some by apply lit_app_nonempty.
    rewrite filter_Boolean_Some by apply lit_nonempty.
    cbn [filter_Boolean join]. by rewrite <- !app_assoc.
Qed.

Lemma includes_intro (before needle after : jsstring) :
  includes (before ++ needle ++ after) needle.
Proof. by exists before, after. Qed.

(** C10. The reply that arrives after an accepted submit carries the content
    computed from the provider, the model and the staged attachments of the
    state in which the submit happened: it names that provider's and that
    model's label and, when attachments were staged, their number. No event
    in between (a change of provider or model included) has any influence on
    it. *)
Theorem reply_content_fixed_at_submit (s : state) (events : list event) :
  accepted s ->
  let h := nextTimer s in
  let cid := activeConversationId s in
  let content :=
    assistantContentOf (activeProvider s) (activeModel s) (composerAttachments s) in
  let s2 := run (handleSubmit s) events in
  is_Some (timers s2 !! h) -> now s + 600 <= now s2 ->
  exists m : ConversationMessage,
    last (default [] (conversations (step s2 (EvTimeout h)) !! cid)) = Some m
    /\ m_content m = content
    /\ includes content (p_label (activeProvider s))
    /\ includes content (mo_label (activeModel s))
    /\ (composerAttachments s <> [] ->
        includes content
          (lit "I spotted " ++ Number_toString (length (composerAttachments s))
             ++ lit " attachment")).
Proof.
  intros Ha h cid content s2 Hp Hlate.
  pose proof (pending_reply_is_submitted s events Ha Hp) as Ht. fold s2 h cid in Ht.
  exists (submittedReply s). unfold step. rewrite (timeout_reply s2 h _ _ _ Ht Hlate).
  destruct (replyArrives_conversations cid (submittedReply s) (setTimers (delete h) s2))
    as (Hc & _).
  rewrite Hc. replace (conversations (setTimers (delete h) s2)) with (conversations s2)
    by (by destruct s2).
  rewrite lookup_insert_eq. cbn [default from_option id]. rewrite last_snoc. split; [done|].
  unfold content, submittedReply. rewrite spreadAttachment_id. split; [done|].
  rewrite assistantContentOf_eq. split; [|split].
  - apply includes_intro.
  - rewrite !(app_assoc _ _ (mo_label _ ++ _)). apply includes_intro.
  - intros Hne. destruct (composerAttachments s) as [|a l] eqn:E; [done|].
    exists (lit "Pretending to call " ++ p_label (activeProvider s) ++ lit " " ++ bullet
              ++ lit " " ++ mo_label (activeModel s) ++ lit "." ++ nl ++ nl).
    eexists. rewrite <- !app_assoc. reflexivity.
Qed.

Lemma accepted_pending (s : state) :
  accepted s -> trim (input s) <> [] \/ composerAttachments s <> [].
Proof.
  intros [Hp _]. unfold hasPendingInput in Hp.
  destruct (trim (input s)); [|by left]. destruct (composerAttachments s); [done|by right].
Qed.

Lemma userContentOf_prompt (prompt : jsstring) (attachments : list Attachment) :
  prompt <> [] -> userContentOf prompt (attachmentsSummaryOf attachments) = prompt.
Proof. unfold userContentOf, or_else. by destruct prompt. Qed.

Lemma userContentOf_attachments (attachments : list Attachment) :
  attachments <> [] ->
  userContentOf [] (attachmentsSummaryOf attachments) =
    lit "Shared " ++ Number_toString (length attachments) ++ lit " attachment"
      ++ plural (length attachments).
Proof.
  intros Hne. destruct attachments as [|a l]; [done|].
  unfold userContentOf, or_else, attachmentsSummaryOf. cbn [length Nat.ltb Nat.leb].
  generalize (Number_toString (S (length l)) ++ lit " attachment" ++ plural (S (length l))).
  intros rest. unfold lit. by cbn [list_ascii_of_string map app opt_or_else].
Qed.

Lemma userContentOf_fallback :
  userContentOf [] (attachmentsSummaryOf []) = lit "Sent a message".
Proof. reflexivity. Qed.

(** C7. An accepted submit appends, at the end of the active conversation, a
    user message whose content is the trimmed input when that is not empty,
    else the attachment-count summary when attachments are staged, else
    ["Sent a message"]; it is never empty, and with empty text and one staged
    attachment it is ["Shared 1 attachment"]. *)
Theorem user_content_priority (s : state) :
  accepted s ->
  let um := submittedMessage s in
  conversations (handleSubmit s) !! activeConversationId s = Some (messages s ++ [um])
  /\ m_role um = user
  /\ m_content um =
       userContentOf (trim (input s)) (attachmentsSummaryOf (composerAttachments s))
  /\ m_content um <> []
  /\ (trim (input s) = [] -> length (composerAttachments s) = 1 ->
      m_content um = lit "Shared 1 attachment")
  /\ (forall prompt attachments, prompt <> [] ->
        userContentOf prompt (attachmentsSummaryOf attachments) = prompt)
  /\ (forall attachments, attachments <> [] ->
        userContentOf [] (attachmentsSummaryOf attachments) =
          lit "Shared " ++ Number_toString (length attachments) ++ lit " attachment"
            ++ plural (length attachments))
  /\ userContentOf [] (attachmentsSummaryOf []) = lit "Sent a message".
Proof.
  intros Ha um.
  assert (m_content um =
            userContentOf (trim (input s)) (attachmentsSummaryOf (composerAttachments s)))
    as Hcontent.
  { unfold um, submittedMessage. cbn [m_content userMessageOf]. by rewrite spreadAttachment_id. }
  split.
  { rewrite handleSubmit_accepted by done.
    unfold refreshHistoryPreview, updateConversationMessages, messages.
    destruct s; st. by rewrite lookup_insert_eq. }
  split; [done|]. split; [done|]. split; [|split].
  - rewrite Hcontent. destruct (trim (input s)) as [|c p] eqn:Hp.
    + destruct (accepted_pending s Ha) as [Hne|Hne]; [congruence|].
      rewrite userContentOf_attachments by done. apply lit_app_nonempty.
    + by rewrite userContentOf_prompt.
  - intros Hp Hone. rewrite Hcontent, Hp.
    destruct (composerAttachments s) as [|a [|b l]]; try discriminate Hone.
    reflexivity.
  - split; [apply userContentOf_prompt|]. split; [apply userContentOf_attachments|].
    apply userContentOf_fallback.
Qed.

(** ** Reactions *)

Lemma toggleMessage_other (messageId : jsstring) (reaction : Reaction)
    (message : ConversationMessage) :
  m_id message <> messageId -> toggleMessage messageId reaction message = message.
Proof. intros Hne. unfold toggleMessage. by rewrite bool_decide_eq_false_2. Qed.

Lemma toggleMessage_hit (messageId : jsstring) (reaction : Reaction)
    (message : ConversationMessage) :
  m_id message = messageId ->
  toggleMessage messageId reaction message =
    withReaction (if bool_decide (m_reaction message = Some reaction)
                  then None else Some reaction) message.
Proof. intros He. unfold toggleMessage. by rewrite bool_decide_eq_true_2. Qed.

Lemma toggleReaction_messages (messageId : jsstring) (reaction : Reaction) (s : state) :
  messages (toggleReaction messageId reaction s) =
    map (toggleMessage messageId reaction) (messages s)
  /\ activeConversationId (toggleReaction messageId reaction s) = activeConversationId s
  /\ (forall c, c <> activeConversationId s ->
        conversations (toggleReaction messageId reaction s) !! c = conversations s !! c).
Proof.
  unfold toggleReaction, updateConversationMessages, messages. destruct s; st.
  rewrite lookup_insert_eq. split; [done|]. split; [done|].
  intros c Hc. by rewrite lookup_insert_ne.
Qed.

Lemma map_toggle_absent (messageId : jsstring) (reaction : Reaction)
    (l : list ConversationMessage) :
  Forall (fun m => m_id m <> messageId) l -> map (toggleMessage messageId reaction) l = l.
Proof.
  induction 1 as [|m l Hm _ IH]; cbn [map]; [done|].
  by rewrite toggleMessage_other, IH.
Qed.

(** C8. On the messages of the active conversation: toggling a reaction on a
    message that has none sets it, and toggling the same one again gives the
    message back as it was; toggling the other reaction replaces the present
    one; messages with another identifier are not touched; and when no
    message has the identifier, the conversation and all others stay as they
    are (the whole state does, when the conversation has an entry in the
    store). *)
Theorem reaction_toggle (s : state) (messageId : jsstring) (reaction : Reaction) :
  let once := toggleReaction messageId reaction s in
  let twice := toggleReaction messageId reaction once in
  (forall i m, messages s !! i = Some m -> m_id m = messageId -> m_reaction m = None ->
     messages once !! i = Some (withReaction (Some reaction) m)
     /\ messages twice !! i = Some m)
  /\ (forall i m other, messages s !! i = Some m -> m_id m = messageId ->
        m_reaction m = Some other -> other <> reaction ->
        messages once !! i = Some (withReaction (Some reaction) m))
  /\ (forall i m, messages s !! i = Some m -> m_id m <> messageId ->
        messages once !! i = Some m)
  /\ (Forall (fun m => m_id m <> messageId) (messages s) ->
        messages once = messages s
        /\ (forall c, c <> activeConversationId s ->
              conversations once !! c = conversations s !! c)
        /\ (is_Some (conversations s !! activeConversationId s) -> once = s)).
Proof.
  intros once twice.
  destruct (toggleReaction_messages messageId reaction s) as (Hm & Ha & Ho).
  destruct (toggleReaction_messages messageId reaction once) as (Hm2 & _ & _).
  fold once in Hm, Ha, Ho. fold twice in Hm2.
  split; [|split; [|split]].
  - intros i m Hi Hid Hr. rewrite Hm2, Hm, !list_lookup_fmap, Hi. cbn [fmap option_fmap option_map].
    rewrite (toggleMessage_hit _ _ m Hid), Hr.
    rewrite bool_decide_eq_false_2 by done. split; [done|].
    rewrite toggleMessage_hit by done. cbn [withReaction m_reaction].
    rewrite bool_decide_eq_true_2 by done. f_equal. destruct m. cbn in *. by subst.
  - intros i m other Hi Hid Hr Hne. rewrite Hm, list_lookup_fmap, Hi.
    cbn [fmap option_fmap option_map]. rewrite (toggleMessage_hit _ _ m Hid), Hr.
    rewrite bool_decide_eq_false_2; [done|congruence].
  - intros i m Hi Hid. rewrite Hm, list_lookup_fmap, Hi. cbn [fmap option_fmap option_map].
    by rewrite toggleMessage_other.
  - intros Habsent. split; [by rewrite Hm, map_toggle_absent|]. split; [done|].
    intros [l Hl]. unfold once, toggleReaction, updateConversationMessages.
    unfold messages in Habsent. rewrite Hl in Habsent. cbn [default from_option id] in Habsent.
    destruct s; st_all. rewrite Hl. cbn [default from_option id].
    rewrite map_toggle_absent by done. by rewrite insert_id.
Qed.

(** ** Identifiers *)

Lemma createId_of_digits (digits : jsstring) :
  createId_of (lit "0." ++ digits) = take 8 digits.
Proof. unfold createId_of, slice. reflexivity. Qed.

(** C6, as the code has it. An identifier is the first eight digits (at
    most) of the base-36 fraction of its own random draw and of nothing
    else: a sequence of calls returns exactly these prefixes, so two calls
    return the same identifier exactly when their draws agree on them. *)
Theorem createId_is_digit_prefix (draws : list jsstring) :
  createId_calls (map (fun digits => lit "0." ++ digits) draws) = map (take 8) draws
  /\ (forall digits1 digits2,
        createId_of (lit "0." ++ digits1) = createId_of (lit "0." ++ digits2)
        <-> take 8 digits1 = take 8 digits2)
  /\ (forall k1 k2 digits1 digits2,
        random36 k1 = lit "0." ++ digits1 -> random36 k2 = lit "0." ++ digits2 ->
        (fst (createId k1) = fst (createId k2) <-> take 8 digits1 = take 8 digits2)).
Proof.
  split; [|split].
  - unfold createId_calls. rewrite map_map. apply map_ext. intros. apply createId_of_digits.
  - intros. by rewrite !createId_of_digits.
  - intros k1 k2 d1 d2 H1 H2. unfold createId. cbn [fst]. by rewrite H1, H2, !createId_of_digits.
Qed.

(** ** The history index *)

Lemma spreadConversation_id (c : HistoryConversation) : spreadConversation c = c.
Proof. by destruct c. Qed.

Lemma cloneHistoryGroups_id (groups : list HistoryGroup) :
  cloneHistoryGroups groups = groups.
Proof.
  unfold cloneHistoryGroups. induction groups as [|[label cs] groups IH]; cbn [map]; [done|].
  rewrite IH. f_equal. f_equal. cbn [g_conversations].
  induction cs as [|c cs IHc]; cbn [map]; [done|]. by rewrite spreadConversation_id, IHc.
Qed.

Lemma findIndex_Some {A} (p : A -> bool) (l : list A) (i : nat) :
  findIndex p l = Some i ->
  exists a, l !! i = Some a /\ p a = true /\ Forall (fun b => p b = false) (take i l).
Proof.
  revert i. induction l as [|a l IH]; intros i; cbn [findIndex]; [done|].
  destruct (p a) eqn:Hp.
  - intros [= <-]. exists a. by repeat split.
  - destruct (findIndex p l) as [j|]; [|done]. intros [= <-].
    destruct (IH j eq_refl) as (b & Hb & Hpb & Hall). exists b. repeat split; [done..|].
    cbn [take]. by constructor.
Qed.

Lemma findIndex_None {A} (p : A -> bool) (l : list A) :
  findIndex p l = None -> Forall (fun b => p b = false) l.
Proof.
  induction l as [|a l IH]; cbn [findIndex]; [done|].
  destruct (p a) eqn:Hp; [done|]. destruct (findIndex p l); [done|]. intros _. by constructor; auto.
Qed.

Lemma delete_fmap {A B} (f : A -> B) (i : nat) (l : list A) :
  map f (delete i l) = delete i (map f l).
Proof. revert i. induction l as [|a l IH]; intros [|i]; cbn; [done..|]. by rewrite IH. Qed.

Lemma delete_NoDup_elem {A} (l : list A) (i : nat) (a : A) :
  NoDup l -> l !! i = Some a ->
  NoDup (delete i l) /\ forall x, x ∈ delete i l <-> x ∈ l /\ x <> a.
Proof.
  revert i. induction l as [|b l IH]; intros i Hnd Hi; [done|].
  apply NoDup_cons in Hnd as [Hb Hnd]. destruct i as [|i]; cbn in *.
  - injection Hi as ->. split; [done|]. intros x. rewrite elem_of_cons. naive_solver.
  - destruct (IH i Hnd Hi) as [Hnd' Hin]. split.
    + apply NoDup_cons. split; [|done]. rewrite Hin. naive_solver.
    + intros x. rewrite !elem_of_cons, Hin. split; [|naive_solver].
      intros [->|[Hx Hne]]; [|naive_solver]. split; [by left|].
      intros ->. apply Hb. by eapply list_elem_of_lookup_2.
Qed.

Lemma all_ids_cons (section : HistoryGroup) (groups : list HistoryGroup) :
  all_ids (section :: groups) = map h_id (g_conversations section) ++ all_ids groups.
Proof. reflexivity. Qed.

Lemma no_id_findIndex (cs : list HistoryConversation) (cid : jsstring) :
  findIndex (fun c => bool_decide (h_id c = cid)) cs = None <-> cid ∉ map h_id cs.
Proof.
  induction cs as [|c cs IH]; cbn [findIndex map].
  - split; [intros _; apply not_elem_of_nil|done].
  - rewrite not_elem_of_cons. case_bool_decide as Hc.
    + split; [done|]. intros [Hne _]. by destruct Hne.
    + destruct (findIndex _ cs); cbn; split; try done.
      * intros [_ Hn]. by apply IH in Hn.
      * intros _. split; [done|]. by apply IH.
Qed.

(** What the loop of [promoteConversation] leaves, on an index without
    duplicates: the same groups, without the promoted identifier. *)
Lemma extractConversation_NoDup (groups : list HistoryGroup) (cid : jsstring) :
  NoDup (all_ids groups) ->
  let next := fst (extractConversation groups cid) in
  NoDup (all_ids next)
  /\ (forall x, x ∈ all_ids next <-> x ∈ all_ids groups /\ x <> cid)
  /\ length next = length groups
  /\ map g_label next = map g_label groups.
Proof.
  induction groups as [|section groups IH]; intros Hnd; cbn [extractConversation].
  { cbn. split; [done|]. split; [|done]. intros x. split; [|naive_solver].
    intros Hx. by apply elem_of_nil in Hx. }
  rewrite all_ids_cons in Hnd. apply NoDup_app in Hnd as (Hnd1 & Hdisj & Hnd2).
  destruct (findIndex _ (g_conversations section)) as [index|] eqn:Hfind.
  - apply findIndex_Some in Hfind as (c & Hc & Hid & _). apply bool_decide_eq_true in Hid.
    assert (map h_id (g_conversations section) !! index = Some cid) as Hi.
    { by rewrite list_lookup_fmap, Hc; cbn; rewrite Hid. }
    destruct (delete_NoDup_elem _ _ _ Hnd1 Hi) as [Hnd' Hin].
    cbn [fst]. rewrite !all_ids_cons. cbn [g_conversations]. rewrite delete_fmap.
    split; [|split; [|done]].
    + apply NoDup_app. split; [done|]. split; [|done].
      intros x Hx. apply Hin in Hx as [Hx _]. by apply Hdisj.
    + intros x. rewrite !elem_of_app, Hin. split; [|naive_solver].
      intros [[Hx Hne]|Hx]; [naive_solver|]. split; [by right|].
      intros ->. eapply Hdisj; [|done]. by eapply list_elem_of_lookup_2.
  - apply no_id_findIndex in Hfind.
    destruct (IH Hnd2) as (Hnd' & Hin & Hlen & Hlab).
    destruct (extractConversation groups cid) as [rest' existing] eqn:E. cbn [fst] in *.
    rewrite !all_ids_cons. split; [|split; [|split]].
    + apply NoDup_app. split; [done|]. split; [|done].
      intros x Hx Hx'. apply Hin in Hx' as [Hx' _]. by eapply Hdisj.
    + intros x. rewrite !elem_of_app, Hin. split; [|naive_solver].
      intros [Hx|[Hx Hne]]; [|naive_solver]. split; [by left|]. by intros ->.
    + cbn. by rewrite Hlen.
    + cbn. by rewrite Hlab.
Qed.

(** [existing] is the first entry with the identifier, if there is one. *)
Lemma extractConversation_existing (groups : list HistoryGroup) (cid : jsstring) :
  match snd (extractConversation groups cid) with
  | Some e => h_id e = cid /\ exists section, section ∈ groups /\ e ∈ g_conversations section
  | None => cid ∉ all_ids groups
  end.
Proof.
  induction groups as [|section groups IH]; cbn [extractConversation snd].
  { apply not_elem_of_nil. }
  destruct (findIndex _ (g_conversations section)) as [index|] eqn:Hfind.
  - apply findIndex_Some in Hfind as (c & Hc & Hid & _). apply bool_decide_eq_true in Hid.
    cbn [snd]. rewrite Hc. split; [done|]. exists section. split; [by left|].
    by eapply list_elem_of_lookup_2.
  - apply no_id_findIndex in Hfind.
    destruct (extractConversation groups cid) as [rest' [e|]]; cbn [snd] in *.
    + destruct IH as (He & section' & Hs & Hin). split; [done|]. exists section'.
      split; [by right|done].
    + rewrite all_ids_cons, elem_of_app. tauto.
Qed.

Lemma promoteConversation_unfold (groups : list HistoryGroup) (cid : jsstring)
    (updater : option HistoryConversation -> HistoryConversation) :
  let next := fst (extractConversation groups cid) in
  let updated := updater (findSummary groups cid) in
  promoteConversation groups cid updater =
    match next with
    | [] => [ {| g_label := lit "Today"; g_conversations := [updated] |} ]
    | first :: rest =>
        {| g_label := g_label first;
           g_conversations :=
             updated :: List.filter (fun c => negb (bool_decide (h_id c = h_id updated)))
                                    (g_conversations first) |} :: rest
    end.
Proof.
  unfold promoteConversation, findSummary. rewrite cloneHistoryGroups_id.
  destruct (extractConversation groups cid) as [[|first rest] existing]; reflexivity.
Qed.

Lemma filter_other_ids (cs : list HistoryConversation) (cid : jsstring) :
  cid ∉ map h_id cs ->
  List.filter (fun c => negb (bool_decide (h_id c = cid))) cs = cs.
Proof.
  induction cs as [|c cs IH]; cbn [List.filter map]; [done|].
  rewrite not_elem_of_cons. intros [Hne Hn]. rewrite bool_decide_eq_false_2 by done.
  cbn. by rewrite IH.
Qed.

Lemma findSummary_id (groups : list HistoryGroup) (cid : jsstring) (e : HistoryConversation) :
  findSummary groups cid = Some e -> h_id e = cid.
Proof.
  unfold findSummary. rewrite cloneHistoryGroups_id.
  pose proof (extractConversation_existing groups cid) as He. intros Hs.
  rewrite Hs in He. by destruct He.
Qed.

Lemma elem_of_delete {A} (l : list A) (i : nat) (x : A) : x ∈ delete i l -> x ∈ l.
Proof.
  revert i. induction l as [|a l IH]; intros [|i]; cbn; try done.
  - intros Hx. by right.
  - rewrite !elem_of_cons. intros [->|Hx]; [by left|]. right. by eapply IH.
Qed.

Lemma extractConversation_subset (groups : list HistoryGroup) (cid x : jsstring) :
  x ∈ all_ids (fst (extractConversation groups cid)) -> x ∈ all_ids groups.
Proof.
  induction groups as [|section groups IH]; cbn [extractConversation]; [done|].
  destruct (findIndex _ (g_conversations section)) as [index|].
  - cbn [fst]. rewrite !all_ids_cons, !elem_of_app. cbn [g_conversations].
    rewrite delete_fmap. intros [Hx|Hx]; [left; by eapply elem_of_delete|by right].
  - destruct (extractConversation groups cid) as [rest' existing]. cbn [fst] in *.
    rewrite !all_ids_cons, !elem_of_app. intros [Hx|Hx]; [by left|right; by apply IH].
Qed.

(** The identifiers after a promotion, whatever the index and the updater. *)
Lemma promoteConversation_subset (groups : list HistoryGroup) (cid x : jsstring)
    (updater : option HistoryConversation -> HistoryConversation) :
  x ∈ all_ids (promoteConversation groups cid updater) ->
  x = h_id (updater (findSummary groups cid)) \/ x ∈ all_ids groups.
Proof.
  rewrite promoteConversation_unfold. cbv zeta.
  pose proof (extractConversation_subset groups cid x) as Hsub.
  destruct (fst (extractConversation groups cid)) as [|first rest].
  - cbn. rewrite list_elem_of_singleton. tauto.
  - rewrite all_ids_cons in *. cbn [g_conversations map]. rewrite elem_of_app, elem_of_cons.
    intros [[->|Hx]|Hx]; [by left| |].
    + right. apply Hsub. rewrite elem_of_app. left.
      apply list_elem_of_In, in_map_iff in Hx as (c & Hid & Hc).
      apply filter_In in Hc as [Hc _]. apply list_elem_of_In, in_map_iff. by exists c.
    + right. apply Hsub. rewrite elem_of_app. by right.
Qed.

(** One promotion whose updater keeps the identifier of what it is given. *)
Lemma promoteConversation_NoDup_at (groups : list HistoryGroup) (cid : jsstring)
    (updater : option HistoryConversation -> HistoryConversation) :
  NoDup (all_ids groups) -> h_id (updater (findSummary groups cid)) = cid ->
  NoDup (all_ids (promoteConversation groups cid updater))
  /\ forall x, x ∈ all_ids (promoteConversation groups cid updater)
               <-> x = cid \/ x ∈ all_ids groups.
Proof.
  intros Hnd Hkeep.
  destruct (extractConversation_NoDup groups cid Hnd) as (Hnd' & Hin & _). cbv zeta in *.
  assert (all_ids (promoteConversation groups cid updater) =
            cid :: all_ids (fst (extractConversation groups cid))) as ->.
  { rewrite promoteConversation_unfold. cbv zeta.
    destruct (fst (extractConversation groups cid)) as [|first rest].
    - cbn. by rewrite Hkeep.
    - rewrite !all_ids_cons. cbn [g_conversations map]. rewrite Hkeep.
      rewrite filter_other_ids; [done|].
      intros Hx. assert (cid ∈ all_ids (first :: rest)) as Hc.
      { rewrite all_ids_cons, elem_of_app. by left. }
      apply Hin in Hc. tauto. }
  split.
  - apply NoDup_cons. split; [|done]. rewrite Hin. tauto.
  - intros x. rewrite elem_of_cons, Hin. destruct (decide (x = cid)); tauto.
Qed.

(** A promotion whose updater answers with another identifier loses the
    promoted one. *)
Lemma promoteConversation_loses (groups : list HistoryGroup) (cid : jsstring)
    (updater : option HistoryConversation -> HistoryConversation) :
  NoDup (all_ids groups) -> h_id (updater (findSummary groups cid)) <> cid ->
  cid ∉ all_ids (promoteConversation groups cid updater).
Proof.
  intros Hnd Hne.
  destruct (extractConversation_NoDup groups cid Hnd) as (_ & Hin & _). cbv zeta in *.
  rewrite promoteConversation_unfold. cbv zeta.
  destruct (fst (extractConversation groups cid)) as [|first rest].
  - cbn. rewrite list_elem_of_singleton. congruence.
  - assert (cid ∉ all_ids (first :: rest)) as Hout.
    { intros Hx. apply Hin in Hx as [_ Hx]. by apply Hx. }
    rewrite all_ids_cons in *. cbn [g_conversations map]. rewrite elem_of_app, elem_of_cons.
    rewrite elem_of_app in Hout.
    intros [[Heq|Hx]|Hx]; [congruence| |tauto].
    apply Hout. left. apply list_elem_of_In, in_map_iff in Hx as (c & Hid & Hc).
    apply filter_In in Hc as [Hc _]. apply list_elem_of_In, in_map_iff. by exists c.
Qed.

(** Every event promotes at most once, with an updater that returns a summary
    of the promoted conversation: [refreshHistoryPreview] keeps the
    identifier of [existing], which is the promoted one, [handleNewChat]
    names it, and [handleSelectConversation] answers with [existing] or with
    the summary whose identifier it promotes. *)
Lemma step_promotes (s : state) (e : event) :
  exists calls,
    historyGroups (step s e) = promoteAll (historyGroups s) calls
    /\ keepIds (historyGroups s) calls.
Proof.
  step_cases e s;
    lazymatch goal with
    | |- exists _, promoteConversation ?g ?c ?u = _ /\ _ =>
        exists [(c, u)]; split; [reflexivity|]; split; [|exact I];
        unfold keepsId; cbn [fst snd h_id];
        try done;
        destruct (findSummary g c) as [existing|] eqn:E; cbn [h_id]; try done;
        try rewrite spreadConversation_id; try done;
        by eapply findSummary_id
    | |- _ => by exists []
    end.
Qed.

Lemma groupsHolding_absent (groups : list HistoryGroup) (x : jsstring) :
  x ∉ all_ids groups -> groupsHolding groups x = 0.
Proof.
  unfold groupsHolding. induction groups as [|section groups IH]; [done|].
  rewrite all_ids_cons, elem_of_app. intros Hx. cbn [List.filter].
  destruct (existsb _ (g_conversations section)) eqn:E.
  - exfalso. apply Hx. left. apply existsb_exists in E as (c & Hc & Hid).
    apply bool_decide_eq_true in Hid. subst x. apply list_elem_of_In, in_map, Hc.
  - apply IH. tauto.
Qed.

Lemma groupsHolding_NoDup (groups : list HistoryGroup) (x : jsstring) :
  NoDup (all_ids groups) -> x ∈ all_ids groups -> groupsHolding groups x = 1.
Proof.
  induction groups as [|section groups IH]; intros Hnd Hx.
  { by apply elem_of_nil in Hx. }
  rewrite all_ids_cons in Hnd, Hx. apply NoDup_app in Hnd as (Hnd1 & Hdisj & Hnd2).
  unfold groupsHolding. cbn [List.filter].
  destruct (existsb _ (g_conversations section)) eqn:E.
  - apply existsb_exists in E as (c & Hc & Hid). apply bool_decide_eq_true in Hid. subst x.
    cbn [length]. f_equal. apply groupsHolding_absent, Hdisj.
    apply list_elem_of_In, in_map, Hc.
  - apply elem_of_app in Hx as [Hx|Hx]; [|by apply IH].
    exfalso. apply list_elem_of_In, in_map_iff in Hx as (c & Hid & Hc).
    assert (existsb (fun c => bool_decide (h_id c = x)) (g_conversations section) = true);
      [|congruence].
    apply existsb_exists. exists c. split; [done|]. by apply bool_decide_eq_true.
Qed.

(** C3, as the code has it. From an index in which no identifier occurs
    twice, any sequence of promotions in which each updater, given what the
    index holds for the promoted conversation, returns a summary of that
    conversation leaves an index in which no identifier occurs twice and every
    identifier sits in exactly one group; its identifiers are those of the
    start and the promoted ones, none is lost. The condition is needed: a
    call that does not meet it loses the promoted identifier. Every event
    of the component is such a sequence of promotions of its index. *)
Theorem promote_keeps_ids_unique (groups : list HistoryGroup) (calls : list promoteCall) :
  NoDup (all_ids groups) -> keepIds groups calls ->
  let result := promoteAll groups calls in
  NoDup (all_ids result)
  /\ (forall x, x ∈ all_ids result <-> x ∈ all_ids groups \/ x ∈ map fst calls)
  /\ (forall x, x ∈ all_ids result -> groupsHolding result x = 1)
  /\ (forall call, ~ keepsId groups call ->
        fst call ∉ all_ids (promoteConversation groups (fst call) (snd call)))
  /\ (forall (s : state) (e : event),
        exists calls',
          historyGroups (step s e) = promoteAll (historyGroups s) calls'
          /\ keepIds (historyGroups s) calls').
Proof.
  intros Hnd Hkeep.
  assert (NoDup (all_ids (promoteAll groups calls))
          /\ forall x, x ∈ all_ids (promoteAll groups calls)
                       <-> x ∈ all_ids groups \/ x ∈ map fst calls) as [Hnd' Hin].
  { revert groups Hnd Hkeep. induction calls as [|call calls IH]; intros groups Hnd Hkeep.
    - cbn. split; [done|]. intros x. rewrite elem_of_nil. tauto.
    - destruct Hkeep as [Hcall Hrest].
      destruct (promoteConversation_NoDup_at groups (fst call) (snd call) Hnd Hcall)
        as [Hnd1 Hin1].
      destruct (IH _ Hnd1 Hrest) as [Hnd2 Hin2]. unfold promoteAll in *. cbn [foldl map].
      split; [done|]. intros x. rewrite Hin2, Hin1, elem_of_cons. tauto. }
  cbv zeta. split; [done|]. split; [done|].
  split; [intros x Hx; by apply groupsHolding_NoDup|].
  split; [|apply step_promotes].
  intros call Hn. by apply promoteConversation_loses.
Qed.

End Properties.

(** ** The object store *)

Section HeapProperties.

Local Abbreviation pureFindIndex := findIndex (only parsing).
Local Abbreviation purePromote := promoteConversation (only parsing).

Import Heap.

Lemma readAll_Some {A} (read : loc -> option A) (elems : list loc) (vs : list A) :
  readAll read elems = Some vs <-> Forall2 (fun l v => read l = Some v) elems vs.
Proof.
  revert vs. induction elems as [|l elems IH]; intros vs; cbn [readAll].
  - split; [intros [= <-]; constructor|]. by inversion 1.
  - destruct (read l) as [a|] eqn:Hl.
    + destruct (readAll read elems) as [rest|] eqn:Hr.
      * split.
        -- intros [= <-]. constructor; [done|]. by apply IH.
        -- inversion 1 as [|? v ? vs' Hv Hvs]; subst. apply IH in Hvs. congruence.
      * split; [done|]. inversion 1 as [|? v ? vs' Hv Hvs]; subst. by apply IH in Hvs.
    + split; [done|]. inversion 1; congruence.
Qed.

Lemma readAll_mono {A} (read read' : loc -> option A) (elems : list loc) (vs : list A) :
  (forall l v, read l = Some v -> read' l = Some v) ->
  readAll read elems = Some vs -> readAll read' elems = Some vs.
Proof.
  intros Hmono. rewrite !readAll_Some. intros H. eapply Forall2_impl; [exact H|]. auto.
Qed.



Lemma readSummary_Some (h : heap) (l : loc) (c : HistoryConversation) :
  readSummary h l = Some c <-> h !! l = Some (OSummary c).
Proof.
  unfold readSummary. destruct (h !! l) as [[]|]; split; intros; simplify_eq; done.
Qed.

Lemma keepsSummaries_readAll (h h' : heap) (elems : list loc) (cs : list HistoryConversation) :
  keepsSummaries h h' ->
  readAll (readSummary h) elems = Some cs -> readAll (readSummary h') elems = Some cs.
Proof.
  intros Hk. apply readAll_mono. intros l c. rewrite !readSummary_Some. apply Hk.
Qed.

Lemma prefix_keepsSummaries (h h' : heap) : h `prefix_of` h' -> keepsSummaries h h'.
Proof. intros Hp l c Hl. by eapply prefix_lookup_Some. Qed.


Lemma owns_le (h : heap) (lo hi : nat) (sections : list loc) (gs : list HistoryGroup) :
  owns h lo hi sections gs -> lo <= hi.
Proof. induction 1; lia. Qed.

Lemma owns_frame (h h' : heap) (lo hi : nat) (sections : list loc) (gs : list HistoryGroup) :
  owns h lo hi sections gs ->
  (forall l, lo <= l < hi -> h !! l <> None -> h' !! l = h !! l) -> keepsSummaries h h' ->
  owns h' lo hi sections gs.
Proof.
  induction 1 as [|lo mid hi section sections g gs label cl elems Hs Hc Hr Hl ? ? ? ? ? Hown IH];
    intros Hframe Hk; [by constructor|].
  pose proof (owns_le _ _ _ _ _ Hown).
  apply (owns_cons _ lo mid hi _ _ _ _ label cl elems);
    [rewrite Hframe; [done|lia|congruence]
    |rewrite Hframe; [done|lia|congruence]
    |by eapply keepsSummaries_readAll
    |done..
    |apply IH; [|done]; intros l Hl'; apply Hframe; lia].
Qed.

Lemma owns_prefix (h h' : heap) (lo hi : nat) (sections : list loc) (gs : list HistoryGroup) :
  owns h lo hi sections gs -> h `prefix_of` h' -> owns h' lo hi sections gs.
Proof.
  intros Hown Hp. eapply owns_frame; [done| |by apply prefix_keepsSummaries].
  intros l _ Hl. destruct (h !! l) as [o|] eqn:E; [|done]. by eapply prefix_lookup_Some.
Qed.

Lemma owns_read (h : heap) (lo hi : nat) (sections : list loc) (gs : list HistoryGroup) :
  owns h lo hi sections gs -> readAll (readGroup h) sections = Some gs.
Proof.
  induction 1 as [|lo mid hi section sections g gs label cl elems Hs Hc Hr Hl ? ? ? ? ? Hown IH];
    [done|].
  cbn [readAll]. rewrite IH. unfold readGroup at 1, readConversations. rewrite Hs, Hc, Hr.
  subst label. by destruct g.
Qed.

Lemma readGroup_Some (h : heap) (l : loc) (g : HistoryGroup) :
  readGroup h l = Some g <->
  exists cl elems, h !! l = Some (OGroup (g_label g) cl) /\ h !! cl = Some (OArray elems)
                   /\ readAll (readSummary h) elems = Some (g_conversations g).
Proof.
  unfold readGroup, readConversations. split.
  - destruct (h !! l) as [[| label cl | |]|]; try done.
    destruct (h !! cl) as [[| | elems |]|] eqn:Hc; try done.
    destruct (readAll _ elems) as [cs|] eqn:E; [|done]. intros [= <-]. by exists cl, elems.
  - intros (cl & elems & -> & -> & ->). by destruct g.
Qed.

Lemma readGroup_prefix (h h' : heap) (l : loc) (g : HistoryGroup) :
  h `prefix_of` h' -> readGroup h l = Some g -> readGroup h' l = Some g.
Proof.
  intros Hp. rewrite !readGroup_Some. intros (cl & elems & Hl & Hc & Hr).
  exists cl, elems. split; [exact (prefix_lookup_Some _ _ _ _ Hl Hp)|].
  split; [exact (prefix_lookup_Some _ _ _ _ Hc Hp)|].
  eapply keepsSummaries_readAll; [by apply prefix_keepsSummaries|done].
Qed.

Lemma cloneConversation_run (h : heap) (l : loc) (c : HistoryConversation) :
  h !! l = Some (OSummary c) ->
  cloneConversation l h = Some (length h, h ++ [OSummary c]).
Proof.
  intros Hl. unfold cloneConversation, loadSummary, mbind, load. rewrite Hl.
  unfold mret, alloc. by rewrite spreadConversation_id.
Qed.

Lemma mapM_cloneConversation (h : heap) (elems : list loc) (cs : list HistoryConversation) :
  readAll (readSummary h) elems = Some cs ->
  exists copies h',
    mapM cloneConversation elems h = Some (copies, h') /\ h `prefix_of` h'
    /\ readAll (readSummary h') copies = Some cs.
Proof.
  revert h cs. induction elems as [|l elems IH]; intros h cs; cbn [readAll mapM].
  - intros [= <-]. by exists [], h.
  - destruct (readSummary h l) as [c|] eqn:Hl; [|done].
    destruct (readAll (readSummary h) elems) as [rest|] eqn:Hr; [|done]. intros [= <-].
    apply readSummary_Some in Hl. unfold mbind at 1. rewrite (cloneConversation_run h l c Hl).
    assert (h `prefix_of` h ++ [OSummary c]) as Hp by (by apply prefix_app_r).
    destruct (IH (h ++ [OSummary c]) rest) as (copies & h' & Hrun & Hp' & Hread).
    { eapply keepsSummaries_readAll; [by apply prefix_keepsSummaries|done]. }
    unfold mbind. rewrite Hrun. exists (length h :: copies), h'.
    split; [done|]. split; [by etrans|].
    cbn [readAll]. rewrite Hread.
    assert (h' !! length h = Some (OSummary c)) as Hc.
    { eapply prefix_lookup_Some; [|done]. by rewrite lookup_app_r, Nat.sub_diag. }
    apply readSummary_Some in Hc. by rewrite Hc.
Qed.

Lemma cloneSection_run (h : heap) (l : loc) (g : HistoryGroup) :
  readGroup h l = Some g ->
  exists h' section cl elems,
    cloneSection l h = Some (section, h') /\ h `prefix_of` h'
    /\ h' !! section = Some (OGroup (g_label g) cl) /\ h' !! cl = Some (OArray elems)
    /\ readAll (readSummary h') elems = Some (g_conversations g)
    /\ length h <= cl /\ cl < section /\ S section = length h'.
Proof.
  intros (cl & elems & Hl & Hc & Hr)%readGroup_Some.
  destruct (mapM_cloneConversation h elems _ Hr) as (copies & h1 & Hrun & Hp & Hread).
  unfold cloneSection, loadGroup, loadArray, mbind, load. rewrite Hl. cbn [mret fst snd].
  rewrite Hc. cbn [mret]. rewrite Hrun. unfold alloc.
  pose proof (prefix_length _ _ Hp).
  exists ((h1 ++ [OArray copies]) ++ [OGroup (g_label g) (length h1)]),
    (length (h1 ++ [OArray copies])), (length h1), copies.
  split; [done|]. split.
  { etrans; [done|]. rewrite <- app_assoc. by apply prefix_app_r. }
  split; [by rewrite lookup_app_r, Nat.sub_diag|].
  split.
  { rewrite <- app_assoc. by rewrite lookup_app_r, Nat.sub_diag. }
  split.
  { eapply keepsSummaries_readAll; [|done]. apply prefix_keepsSummaries.
    rewrite <- app_assoc. by apply prefix_app_r. }
  rewrite !length_app. cbn. lia.
Qed.

Lemma mapM_cloneSection (h : heap) (sections : list loc) (gs : list HistoryGroup) :
  readAll (readGroup h) sections = Some gs ->
  exists copies h',
    mapM cloneSection sections h = Some (copies, h') /\ h `prefix_of` h'
    /\ owns h' (length h) (length h') copies gs.
Proof.
  revert h gs. induction sections as [|l sections IH]; intros h gs; cbn [readAll mapM].
  - intros [= <-]. exists [], h. split; [done|]. split; [done|]. by constructor.
  - destruct (readGroup h l) as [g|] eqn:Hl; [|done].
    destruct (readAll (readGroup h) sections) as [rest|] eqn:Hr; [|done]. intros [= <-].
    destruct (cloneSection_run h l g Hl)
      as (h1 & section & cl & elems & Hrun & Hp & Hs & Hc & Hread & ? & ? & Hlen).
    destruct (IH h1 rest) as (copies & h' & Hrun' & Hp' & Hown).
    { eapply readAll_mono; [|done]. intros l' g'. by apply readGroup_prefix. }
    unfold mbind. rewrite Hrun, Hrun'. exists (section :: copies), h'.
    split; [done|]. split; [by etrans|].
    apply (owns_cons _ (length h) (length h1) _ _ _ _ _ (g_label g) cl elems);
      [exact (prefix_lookup_Some _ _ _ _ Hs Hp')
      |exact (prefix_lookup_Some _ _ _ _ Hc Hp')
      |eapply keepsSummaries_readAll; [by apply prefix_keepsSummaries|done]
      |done|lia|lia|lia|lia|lia|done].
Qed.

Lemma cloneHistoryGroups_run (h : heap) (l : loc) (gs : list HistoryGroup) :
  readGroups h l = Some gs ->
  exists copies h',
    cloneHistoryGroups l h = Some (length h', h' ++ [OArray copies])
    /\ h `prefix_of` h'
    /\ owns (h' ++ [OArray copies]) (length h) (length h') copies gs.
Proof.
  unfold readGroups. destruct (h !! l) as [[| | sections |]|] eqn:Hl; try done. intros Hr.
  destruct (mapM_cloneSection h sections gs Hr) as (copies & h' & Hrun & Hp & Hown).
  exists copies, h'. unfold cloneHistoryGroups, loadArray, mbind, load. rewrite Hl.
  cbn [mret]. rewrite Hrun. split; [done|]. split; [done|].
  eapply owns_prefix; [done|]. by apply prefix_app_r.
Qed.




Lemma lookup_snoc (h : heap) (o : obj) : (h ++ [o]) !! length h = Some o.
Proof. by rewrite lookup_app_r, Nat.sub_diag. Qed.

Lemma lookup_snoc_lt (h : heap) (o : obj) (l : loc) :
  l < length h -> (h ++ [o]) !! l = h !! l.
Proof. intros Hl. by rewrite lookup_app_l. Qed.


Lemma readAttachment_Some (h : heap) (l : loc) (a : Attachment) :
  readAttachment h l = Some a <-> h !! l = Some (OAttachment a).
Proof.
  unfold readAttachment. destruct (h !! l) as [[]|]; split; intros; simplify_eq; done.
Qed.

Lemma readAttachment_prefix (h h' : heap) (l : loc) (a : Attachment) :
  h `prefix_of` h' -> readAttachment h l = Some a -> readAttachment h' l = Some a.
Proof. rewrite !readAttachment_Some. intros Hp Hl. by eapply prefix_lookup_Some. Qed.

Lemma readAttachments_prefix (h h' : heap) (l : loc) (attachments : list Attachment) :
  h `prefix_of` h' ->
  readAttachments h l = Some attachments -> readAttachments h' l = Some attachments.
Proof.
  intros Hp. unfold readAttachments.
  destruct (h !! l) as [[| | elems |]|] eqn:Hl; try done.
  rewrite (prefix_lookup_Some _ _ _ _ Hl Hp). apply readAll_mono.
  intros l' a. by apply readAttachment_prefix.
Qed.

Lemma cloneAttachment_run (h : heap) (l : loc) (a : Attachment) :
  h !! l = Some (OAttachment a) ->
  cloneAttachment l h = Some (length h, h ++ [OAttachment a]).
Proof.
  intros Hl. unfold cloneAttachment, loadAttachment, mbind, load. rewrite Hl.
  unfold mret, alloc. by destruct a.
Qed.

Lemma mapM_cloneAttachment (h : heap) (elems : list loc) (attachments : list Attachment) :
  readAll (readAttachment h) elems = Some attachments ->
  exists copies h',
    mapM cloneAttachment elems h = Some (copies, h') /\ h `prefix_of` h'
    /\ readAll (readAttachment h') copies = Some attachments
    /\ Forall (fun l => length h <= l) copies.
Proof.
  revert h attachments. induction elems as [|l elems IH]; intros h attachments;
    cbn [readAll mapM].
  - intros [= <-]. by exists [], h.
  - destruct (readAttachment h l) as [a|] eqn:Hl; [|done].
    destruct (readAll (readAttachment h) elems) as [rest|] eqn:Hr; [|done]. intros [= <-].
    apply readAttachment_Some in Hl.
    assert (h `prefix_of` h ++ [OAttachment a]) as Hp by (by apply prefix_app_r).
    destruct (IH (h ++ [OAttachment a]) rest) as (copies & h' & Hrun & Hp' & Hread & Hfresh).
    { eapply readAll_mono; [|done]. intros l' a'. by apply readAttachment_prefix. }
    unfold mbind at 1. rewrite (cloneAttachment_run h l a Hl).
    unfold mbind. rewrite Hrun. exists (length h :: copies), h'.
    split; [done|]. split; [by etrans|]. split.
    + cbn [readAll]. rewrite Hread.
      assert (readAttachment h' (length h) = Some a) as ->; [|done].
      apply readAttachment_Some. eapply prefix_lookup_Some; [|done]. apply lookup_snoc.
    + constructor; [done|]. eapply Forall_impl; [done|].
      intros l'. cbn. rewrite length_app. cbn. lia.
Qed.

Lemma drain_run (h : heap) (buffer : loc) (attachments : list Attachment) :
  readAttachments h buffer = Some attachments ->
  exists sent h',
    drain buffer h = Some (sent, h') /\ h `prefix_of` h'
    /\ readAttachments h' sent = Some attachments
    /\ length h <= sent
    /\ Forall (fun l => length h <= l) (elemsAt h' sent).
Proof.
  unfold readAttachments. destruct (h !! buffer) as [[| | elems |]|] eqn:Hb; try done.
  intros Hr. destruct (mapM_cloneAttachment h elems _ Hr) as (copies & h1 & Hrun & Hp & Hread & Hf).
  exists (length h1), (h1 ++ [OArray copies]).
  unfold drain, mbind, loadArray, mbind, load. rewrite Hb. cbn [mret]. rewrite Hrun.
  split; [done|]. split; [etrans; [done|by apply prefix_app_r]|].
  unfold elemsAt. rewrite lookup_snoc. split; [|split; [by apply prefix_length|done]].
  eapply readAll_mono; [|done]. intros l a. apply readAttachment_prefix. by apply prefix_app_r.
Qed.

Lemma filterM_attachments (h : heap) (elems : list loc) (attachments : list Attachment)
    (i : jsstring) :
  readAll (readAttachment h) elems = Some attachments ->
  exists kept,
    filterM (keepsAttachment i) elems h = Some (kept, h)
    /\ readAll (readAttachment h) kept =
         Some (List.filter (fun a => negb (bool_decide (a_id a = i))) attachments).
Proof.
  revert attachments. induction elems as [|l elems IH]; intros attachments;
    cbn [readAll filterM].
  - intros [= <-]. by exists [].
  - destruct (readAttachment h l) as [a|] eqn:Hl; [|done].
    destruct (readAll (readAttachment h) elems) as [rest|] eqn:Hr; [|done]. intros [= <-].
    destruct (IH rest eq_refl) as (kept & Hrun & Hread).
    pose proof Hl as Hl'. apply readAttachment_Some in Hl'.
    unfold mbind, load. rewrite Hl', Hrun. cbn [mret keepsAttachment List.filter].
    destruct (negb (bool_decide (a_id a = i))).
    + exists (l :: kept). split; [done|]. cbn [readAll]. by rewrite Hl, Hread.
    + by exists kept.
Qed.

Lemma applyOp_run (h : heap) (buffer : loc) (attachments : list Attachment) (op : bufferOp) :
  readAttachments h buffer = Some attachments ->
  exists buffer' h',
    applyOp buffer op h = Some (buffer', h') /\ h `prefix_of` h'
    /\ readAttachments h' buffer' = Some (bufferAfter attachments op).
Proof.
  unfold readAttachments at 1.
  destruct (h !! buffer) as [[| | elems |]|] eqn:Hb; try done. intros Hr.
  destruct op as [a|i|]; cbn [applyOp bufferAfter].
  - unfold mbind, loadArray, mbind, load. rewrite Hb. cbn [mret]. unfold alloc.
    eexists _, _. split; [done|]. split; [rewrite <- app_assoc; by apply prefix_app_r|].
    unfold readAttachments. rewrite lookup_snoc.
    apply readAll_Some. apply Forall2_app.
    + apply readAll_Some. eapply readAll_mono; [|done]. intros l a'.
      apply readAttachment_prefix. rewrite <- app_assoc. by apply prefix_app_r.
    + constructor; [|constructor]. apply readAttachment_Some.
      rewrite lookup_snoc_lt by (rewrite length_app; cbn; lia). apply lookup_snoc.
  - destruct (filterM_attachments h elems _ i Hr) as (kept & Hrun & Hread).
    unfold mbind, loadArray, mbind, load. rewrite Hb. cbn [mret]. rewrite Hrun. unfold alloc.
    eexists _, _. split; [done|]. split; [by apply prefix_app_r|].
    unfold readAttachments. rewrite lookup_snoc.
    eapply readAll_mono; [|done]. intros l a'. apply readAttachment_prefix. by apply prefix_app_r.
  - unfold alloc. eexists _, _. split; [done|]. split; [by apply prefix_app_r|].
    unfold readAttachments. by rewrite lookup_snoc.
Qed.

Lemma applyOps_run (ops : list bufferOp) (h : heap) (buffer : loc)
    (attachments : list Attachment) :
  readAttachments h buffer = Some attachments ->
  exists buffer' h',
    applyOps buffer ops h = Some (buffer', h') /\ h `prefix_of` h'
    /\ readAttachments h' buffer' = Some (foldl bufferAfter attachments ops).
Proof.
  revert h buffer attachments. induction ops as [|op ops IH]; intros h buffer attachments Hr;
    cbn [applyOps foldl].
  - by exists buffer, h.
  - destruct (applyOp_run h buffer attachments op Hr) as (b1 & h1 & Hrun & Hp & Hr1).
    destruct (IH h1 b1 _ Hr1) as (b2 & h2 & Hrun2 & Hp2 & Hr2).
    exists b2, h2. unfold mbind. rewrite Hrun. split; [done|]. split; [by etrans|done].
Qed.

Lemma readGroups_mono (h h' : list Heap.obj) (l : nat) (gs : list HistoryGroup) :
  (forall a, a < length h -> h' !! a = h !! a) ->
  Heap.readGroups h l = Some gs -> Heap.readGroups h' l = Some gs.
Proof.
  intros Hagree.
  assert (forall a o, h !! a = Some o -> h' !! a = Some o) as Hmono.
  { intros a o Ha. rewrite Hagree; [done|]. by eapply lookup_lt_Some. }
  unfold Heap.readGroups. destruct (h !! l) as [[| | elems |]|] eqn:Hl; try done.
  rewrite (Hmono _ _ Hl). apply readAll_mono. intros section g.
  rewrite !readGroup_Some. intros (cl & cs & Hs & Hc & Hr). exists cl, cs.
  split; [by apply Hmono|]. split; [by apply Hmono|].
  eapply keepsSummaries_readAll; [|done]. intros a c. apply Hmono.
Qed.

End HeapProperties.

(** ** The claims on the history index, the store and the buffer *)

Section Claims.

Context {rng : Random}.


Lemma step_buffer_frame (s : state) (e : event) :
  onBuffer e = true ->
  conversations (step s e) = conversations s
  /\ historyGroups (step s e) = historyGroups s
  /\ timers (step s e) = timers s.
Proof. intros He. step_cases e s; try discriminate He; done. Qed.

Lemma run_buffer_frame (events : list event) (s : state) :
  forallb onBuffer events = true ->
  conversations (run s events) = conversations s
  /\ historyGroups (run s events) = historyGroups s
  /\ timers (run s events) = timers s.
Proof.
  revert s. induction events as [|e events IH]; intros s Hq; cbn [run foldl forallb] in *;
    [done|].
  apply andb_prop in Hq as [He Hq].
  destruct (IH (step s e) Hq) as (Hc & Hh & Ht).
  destruct (step_buffer_frame s e He) as (Hc' & Hh' & Ht').
  unfold run in *. by rewrite Hc, Hh, Ht.
Qed.

(** C9. Draining the buffer gives an array of new objects that reads as the
    staged attachments; no cell that existed before is written; and however
    the buffer (any array of the store) is updated afterwards, by staging,
    removing or clearing, every update succeeds and the drained array still
    reads as the same attachments. In the session: the message of an
    accepted submit carries the staged attachments, the buffer is empty
    afterwards, and no sequence of buffer events changes the conversation
    store. *)
Theorem drained_attachments_are_copies :
  (forall (h : list Heap.obj) (buffer : nat) (attachments : list Attachment),
     Heap.readAttachments h buffer = Some attachments ->
     exists sent h1,
       Heap.drain buffer h = Some (sent, h1)
       /\ Heap.readAttachments h1 sent = Some attachments
       /\ length h <= sent
       /\ Forall (fun l => length h <= l) (Heap.elemsAt h1 sent)
       /\ (forall a, a < length h -> h1 !! a = h !! a)
       /\ forall (ops : list Heap.bufferOp) (buffer' : nat) (staged : list Attachment),
            Heap.readAttachments h1 buffer' = Some staged ->
            exists buffer'' h2,
              Heap.applyOps buffer' ops h1 = Some (buffer'', h2)
              /\ Heap.readAttachments h2 buffer'' = Some (foldl Heap.bufferAfter staged ops)
              /\ Heap.readAttachments h2 sent = Some attachments)
  /\ (forall (s : state) (events : list event),
        accepted s -> forallb onBuffer events = true ->
        m_attachments (submittedMessage s) =
          match composerAttachments s with [] => None | l => Some l end
        /\ composerAttachments (handleSubmit s) = []
        /\ conversations (run (handleSubmit s) events) = conversations (handleSubmit s)).
Proof.
  split.
  - intros h buffer attachments Hread.
    destruct (drain_run h buffer attachments Hread) as (sent & h1 & Hrun & Hp & Hsent & Hf & Hel).
    exists sent, h1. split; [done|]. split; [done|]. split; [done|]. split; [done|]. split.
    { intros a Ha. destruct (h !! a) as [o|] eqn:E; [by eapply prefix_lookup_Some|].
      apply lookup_ge_None in E. lia. }
    intros ops buffer' staged Hstaged.
    destruct (applyOps_run ops h1 buffer' staged Hstaged) as (b2 & h2 & Hrun2 & Hp2 & Hr2).
    exists b2, h2. split; [done|]. split; [done|]. by eapply readAttachments_prefix.
  - intros s events Ha Hq. split; [|split].
    + unfold submittedMessage. cbn [m_attachments userMessageOf].
      rewrite spreadAttachment_id. by destruct (composerAttachments s).
    + rewrite handleSubmit_accepted by done.
      unfold refreshHistoryPreview, updateConversationMessages. by destruct s.
    + by apply run_buffer_frame.
Qed.

(** *** The conversation store at startup and on selection *)

Lemma seedConversation_dom (primaryId : option jsstring)
    (m : gmap jsstring (list ConversationMessage)) (c : HistoryConversation) (k : nat)
    (x : jsstring) :
  is_Some (fst (seedConversation primaryId m c k) !! x) <-> x = h_id c \/ is_Some (m !! x).
Proof.
  unfold seedConversation, bind, ret.
  destruct (bool_decide _);
    [destruct (createInitialMessages k) as [msgs k']
    |destruct (createPlaceholderConversation _ _ k) as [msgs k']];
    cbn [fst]; rewrite lookup_insert; case_decide; naive_solver.
Qed.

Lemma foldR_seed_dom (primaryId : option jsstring) (cs : list HistoryConversation)
    (m : gmap jsstring (list ConversationMessage)) (k : nat) (x : jsstring) :
  is_Some (fst (foldR (seedConversation primaryId) cs m k) !! x)
  <-> x ∈ map h_id cs \/ is_Some (m !! x).
Proof.
  revert m k. induction cs as [|c cs IH]; intros m k; cbn [foldR map].
  - cbn. rewrite elem_of_nil. tauto.
  - unfold bind. pose proof (seedConversation_dom primaryId m c k x) as Hc.
    destruct (seedConversation primaryId m c k) as [m' k']. cbn [fst] in Hc.
    rewrite IH, Hc, elem_of_cons. tauto.
Qed.

Lemma buildInitialConversationMap_dom (groups : list HistoryGroup) (k : nat) (x : jsstring) :
  is_Some (fst (buildInitialConversationMap groups k) !! x) <-> x ∈ all_ids groups.
Proof.
  unfold buildInitialConversationMap. generalize (primaryIdOf groups). intros primaryId.
  assert (forall m k,
            is_Some (fst (foldR (fun map section =>
                                   foldR (seedConversation primaryId)
                                         (g_conversations section) map) groups m k) !! x)
            <-> x ∈ all_ids groups \/ is_Some (m !! x)) as H.
  { induction groups as [|section groups IH]; intros m k'; cbn [foldR].
    - cbn. rewrite elem_of_nil. tauto.
    - unfold bind at 1.
      pose proof (foldR_seed_dom primaryId (g_conversations section) m k' x) as Hs.
      destruct (foldR (seedConversation primaryId) (g_conversations section) m k')
        as [m' k'']. cbn [fst] in Hs.
      rewrite IH, Hs, all_ids_cons, elem_of_app. tauto. }
  rewrite H, lookup_empty. split; [intros [?|[? [=]]]; done|by left].
Qed.

Lemma placeholderContent_title (title preview : jsstring) :
  includes (placeholderContent title preview) title.
Proof.
  unfold placeholderContent. cbn [join]. rewrite <- !app_assoc. apply includes_intro.
Qed.

(** C5, as the code has it. The store gets an entry for every conversation
    of the history at startup. Selecting a conversation that has no entry
    adds one entry, a single assistant message with the placeholder text,
    which contains the conversation's title; selecting a conversation that
    has an entry leaves the store as it is. *)
Theorem store_seeded_at_startup :
  (forall (groups : list HistoryGroup) (k : nat) (x : jsstring),
     x ∈ all_ids groups -> is_Some (fst (buildInitialConversationMap groups k) !! x))
  /\ (forall x, x ∈ all_ids historySeed -> is_Some (conversations init !! x))
  /\ (forall (s : state) (c : HistoryConversation),
        conversations s !! h_id c = None ->
        exists m,
          conversations (handleSelectConversation c s) = <[h_id c := [m]]> (conversations s)
          /\ m_role m = assistant
          /\ m_content m = placeholderContent (h_title c) (h_preview c)
          /\ includes (m_content m) (h_title c))
  /\ (forall (s : state) (c : HistoryConversation),
        is_Some (conversations s !! h_id c) ->
        conversations (handleSelectConversation c s) = conversations s).
Proof.
  split; [|split; [|split]].
  - intros groups k x Hx. by apply buildInitialConversationMap_dom.
  - intros x Hx. unfold init.
    pose proof (buildInitialConversationMap_dom historySeed 0 x) as H.
    destruct (buildInitialConversationMap historySeed 0) as [m k]. cbn [fst] in H.
    cbn [conversations]. by apply H.
  - intros s c Hnone.
    exists {| m_id := createId_of (random36 (draws s));
              m_role := assistant;
              m_name := lit "Nova";
              m_avatarFallback := lit "NO";
              m_avatarUrl := None;
              m_content := placeholderContent (h_title c) (h_preview c);
              m_markdown := Some true;
              m_attachments := None;
              m_reaction := None |}.
    split; [|split; [|split]].
    + unfold handleSelectConversation, materialize, createPlaceholderConversation, bind, ret,
        createId.
      destruct s; st_all. rewrite Hnone. st. reflexivity.
    + done.
    + done.
    + apply placeholderContent_title.
  - intros s c [msgs Hsome].
    unfold handleSelectConversation, materialize. destruct s; st_all. rewrite Hsome. by st.
Qed.

End Claims.

(** * Further properties of the component *)

Section Coverage.

Context {rng : Random}.

(** ** Text helpers *)

(** X1. [truncateText] returns a text of 80 code units or fewer as it is;
    a longer one is cut to its first 80 code units followed by the ellipsis.
    The result never has more than 81 code units, and its first 80 are those
    of the text. *)
Theorem truncateText_bounds (text : jsstring) :
  (length text <= 80 -> truncateText text = text)
  /\ (80 < length text ->
      truncateText text = take 80 text ++ ellipsis /\ length (truncateText text) = 81)
  /\ length (truncateText text) <= 81
  /\ take 80 (truncateText text) = take 80 text.
Proof.
  unfold truncateText, slice. rewrite Nat.sub_0_r. change (drop 0 text) with text.
  destruct (length text <=? 80) eqn:E.
  - apply Nat.leb_le in E. split; [done|]. split; [lia|]. split; [lia|done].
  - apply Nat.leb_gt in E. split; [lia|].
    assert (length (take 80 text ++ ellipsis) = 81) as Hlen.
    { rewrite length_app, length_take. unfold ellipsis. cbn [length]. lia. }
    split; [done|]. split; [lia|].
    rewrite take_app_le by (rewrite length_take; lia). by rewrite take_take.
Qed.

Lemma find_findIndex (cs : list HistoryConversation) (cid : jsstring) :
  List.find (fun entry => bool_decide (h_id entry = cid)) cs =
    match findIndex (fun c => bool_decide (h_id c = cid)) cs with
    | Some index => cs !! index
    | None => None
    end.
Proof.
  induction cs as [|c cs IH]; cbn [List.find findIndex]; [done|].
  destruct (bool_decide (h_id c = cid)); [done|]. rewrite IH.
  by destruct (findIndex _ cs).
Qed.

Lemma findConversationTitle_extract (groups : list HistoryGroup) (cid : jsstring) :
  findConversationTitle groups cid =
    match snd (extractConversation groups cid) with
    | Some e => h_title e
    | None => lit "Untitled chat"
    end.
Proof.
  induction groups as [|section groups IH]; cbn [findConversationTitle extractConversation];
    [done|].
  rewrite find_findIndex.
  destruct (findIndex _ (g_conversations section)) as [index|] eqn:Hfind.
  - apply findIndex_Some in Hfind as (c & Hc & _). cbn [snd]. by rewrite Hc.
  - rewrite IH. by destruct (extractConversation groups cid).
Qed.

(** X2. [findConversationTitle] gives the title of the summary that
    [promoteConversation] would take as [existing] (the first one with the
    identifier), and ["Untitled chat"] when the identifier is nowhere in the
    index; after a promotion whose updater keeps the identifier, it gives the
    title that the updater chose. *)
Theorem findConversationTitle_spec (groups : list HistoryGroup) (cid : jsstring) :
  findConversationTitle groups cid =
    match findSummary groups cid with
    | Some e => h_title e
    | None => lit "Untitled chat"
    end
  /\ (cid ∉ all_ids groups -> findConversationTitle groups cid = lit "Untitled chat")
  /\ (forall updater : option HistoryConversation -> HistoryConversation,
        h_id (updater (findSummary groups cid)) = cid ->
        findConversationTitle (promoteConversation groups cid updater) cid =
          h_title (updater (findSummary groups cid))).
Proof.
  assert (findSummary groups cid = snd (extractConversation groups cid)) as Hex.
  { unfold findSummary. by rewrite cloneHistoryGroups_id. }
  split; [by rewrite Hex, findConversationTitle_extract|]. split.
  - intros Hn. rewrite findConversationTitle_extract.
    pose proof (extractConversation_existing groups cid) as He.
    destruct (snd (extractConversation groups cid)) as [e|]; [|done].
    destruct He as (Hid & section & Hs & Hin). exfalso. apply Hn.
    clear -Hid Hs Hin. induction groups as [|g groups IH]; [by apply elem_of_nil in Hs|].
    rewrite all_ids_cons, elem_of_app. apply elem_of_cons in Hs as [->|Hs].
    + left. apply list_elem_of_In, in_map_iff. exists e. split; [done|].
      by apply list_elem_of_In.
    + right. by apply IH.
  - intros updater Hkeep. rewrite promoteConversation_unfold. cbv zeta.
    destruct (fst (extractConversation groups cid)) as [|first rest];
      cbn [findConversationTitle g_conversations List.find];
      by rewrite Hkeep, bool_decide_eq_true_2.
Qed.

(** X3. [formatFileSize] prints a size below 1024 in bytes; from 1024 up to
    1048575 it prints the number of tenths of a kibibyte nearest to the size
    (the larger one on a tie), between ["1.0 KB"] and ["1024.0 KB"]; from
    1048576 on, the nearest number of tenths of a mebibyte, at least
    ["1.0 MB"]. *)
Theorem formatFileSize_spec (size : N) :
  ((size < 1024)%N -> formatFileSize size = N_toString size ++ lit " B")
  /\ ((1024 <= size < 1048576)%N ->
      exists tenths : N,
        formatFileSize size =
          (N_toString (tenths / 10) ++ lit "." ++ N_toString (tenths mod 10)) ++ lit " KB"
        /\ (1024 * tenths <= 10 * size + 512 < 1024 * (tenths + 1))%N
        /\ (10 <= tenths <= 10240)%N)
  /\ ((1048576 <= size)%N ->
      exists tenths : N,
        formatFileSize size =
          (N_toString (tenths / 10) ++ lit "." ++ N_toString (tenths mod 10)) ++ lit " MB"
        /\ (1048576 * tenths <= 10 * size + 524288 < 1048576 * (tenths + 1))%N
        /\ (10 <= tenths)%N).
Proof.
  unfold formatFileSize, toFixed1. change (1024 * 1024)%N with 1048576%N. cbv zeta.
  split; [|split].
  - intros H. apply N.ltb_lt in H. by rewrite H.
  - intros [Hlo Hhi]. apply N.ltb_ge in Hlo. apply N.ltb_lt in Hhi. rewrite Hlo, Hhi.
    apply N.ltb_ge in Hlo. apply N.ltb_lt in Hhi.
    exists ((20 * size + 1024) / (2 * 1024))%N. split; [done|].
    change (2 * 1024)%N with 2048%N.
    pose proof (N.div_mod (20 * size + 1024) 2048 ltac:(done)) as Hdm.
    pose proof (N.mod_lt (20 * size + 1024) 2048 ltac:(done)) as Hm.
    revert Hdm Hm. generalize ((20 * size + 1024) / 2048)%N ((20 * size + 1024) mod 2048)%N.
    intros t r. lia.
  - intros Hlo. pose proof Hlo as Hlo'. apply N.ltb_ge in Hlo.
    assert ((size <? 1024)%N = false) as -> by (apply N.ltb_ge; lia). rewrite Hlo.
    exists ((20 * size + 1048576) / (2 * 1048576))%N. split; [done|].
    change (2 * 1048576)%N with 2097152%N.
    pose proof (N.div_mod (20 * size + 1048576) 2097152 ltac:(done)) as Hdm.
    pose proof (N.mod_lt (20 * size + 1048576) 2097152 ltac:(done)) as Hm.
    revert Hdm Hm.
    generalize ((20 * size + 1048576) / 2097152)%N ((20 * size + 1048576) mod 2097152)%N.
    intros t r. lia.
Qed.

(** ** Invariants of the session *)

Lemma step_history_NoDup (s : state) (e : event) :
  NoDup (all_ids (historyGroups s)) ->
  NoDup (all_ids (historyGroups (step s e)))
  /\ forall x, x ∈ all_ids (historyGroups s) -> x ∈ all_ids (historyGroups (step s e)).
Proof.
  intros Hnd.
  assert (forall cid updater,
            h_id (updater (findSummary (historyGroups s) cid)) = cid ->
            NoDup (all_ids (promoteConversation (historyGroups s) cid updater))
            /\ forall x, x ∈ all_ids (historyGroups s) ->
                         x ∈ all_ids (promoteConversation (historyGroups s) cid updater))
    as Hpromote.
  { intros cid updater Hkeep.
    destruct (promoteConversation_NoDup_at _ cid updater Hnd Hkeep) as [Hnd' Hin].
    split; [done|]. intros x Hx. apply Hin. by right. }
  step_cases e s; try (split; [done|]; done); apply Hpromote; cbn [h_id];
    try done;
    destruct (findSummary _ _) as [c|] eqn:E; try done; by eapply findSummary_id.
Qed.

(** X4. Along every run of the component the history index stays free of
    duplicates: from a state whose index holds no identifier twice, after any
    sequence of events no identifier occurs twice, each one sits in exactly
    one group, and no identifier has left the index. *)
Theorem history_index_stays_unique (s : state) (events : list event) :
  NoDup (all_ids (historyGroups s)) ->
  let s' := run s events in
  NoDup (all_ids (historyGroups s'))
  /\ (forall x, x ∈ all_ids (historyGroups s) -> x ∈ all_ids (historyGroups s'))
  /\ (forall x, x ∈ all_ids (historyGroups s') -> groupsHolding (historyGroups s') x = 1).
Proof.
  intros Hnd s'.
  assert (NoDup (all_ids (historyGroups s'))
          /\ forall x, x ∈ all_ids (historyGroups s) -> x ∈ all_ids (historyGroups s'))
    as [Hnd' Hin].
  { unfold s'. clear s'. revert s Hnd.
    induction events as [|e events IH]; intros s Hnd; cbn [run foldl]; [done|].
    destruct (step_history_NoDup s e Hnd) as [Hnd1 Hin1].
    destruct (IH _ Hnd1) as [Hnd2 Hin2]. split; [done|]. intros x Hx. by apply Hin2, Hin1. }
  split; [done|]. split; [done|]. intros x Hx. by apply groupsHolding_NoDup.
Qed.

Lemma step_storeCovers (s : state) (e : event) : storeCovers s -> storeCovers (step s e).
Proof.
  unfold storeCovers. intros [Hh Ha].
  step_cases e s;
    (split;
     [intros x Hx; try (apply promoteConversation_subset in Hx as [->|Hx]; cbn [h_id])
     |]);
    try (rewrite lookup_insert; case_decide; [by eexists|]);
    try (by apply Hh); try done.
  all: try (destruct (findSummary _ _) as [c'|] eqn:E; cbn [h_id spreadConversation];
            [apply findSummary_id in E; rewrite E|]).
  all: try (rewrite lookup_insert; case_decide; [by eexists|]); try (by apply Hh); try done.
  all: try (by eexists).
Qed.

(** X5. Every conversation of the history index and the active conversation
    have an entry in the store, in every state the component reaches from one
    where this holds; so selecting a summary of the index never makes a
    placeholder: it leaves the store as it is. *)
Theorem store_covers_history (s : state) (events : list event) :
  storeCovers s ->
  let s' := run s events in
  storeCovers s'
  /\ forall c section,
       section ∈ historyGroups s' -> c ∈ g_conversations section ->
       conversations (handleSelectConversation c s') = conversations s'.
Proof.
  intros Hs s'.
  assert (storeCovers s') as Hs'.
  { unfold s'. clear s'. revert s Hs.
    induction events as [|e events IH]; intros s Hs; cbn [run foldl]; [done|].
    by apply IH, step_storeCovers. }
  split; [done|]. intros c section Hsection Hc.
  destruct Hs' as [Hh _].
  assert (is_Some (conversations s' !! h_id c)) as [msgs Hmsgs].
  { apply Hh. generalize dependent (historyGroups s'). intros groups _ Hsection.
    induction groups as [|g groups IH]; [by apply elem_of_nil in Hsection|].
    rewrite all_ids_cons, elem_of_app. apply elem_of_cons in Hsection as [->|Hsection].
    - left. apply list_elem_of_In, in_map, list_elem_of_In, Hc.
    - right. by apply IH. }
  unfold handleSelectConversation, materialize. destruct s'; st_all. rewrite Hmsgs. by st.
Qed.

Lemma step_flagBacked (s : state) (e : event) : flagBacked s -> flagBacked (step s e).
Proof.
  unfold flagBacked. intros [Hfresh Hflag].
  assert (forall h t, timers s !! h = Some t -> h < nextTimer s) as Hlt.
  { intros h t Ht. destruct (decide (h < nextTimer s)) as [|Hge]; [done|].
    rewrite Hfresh in Ht by lia. done. }
  step_cases e s; try (split; [done|]; done).
  - (* the clipboard write resolved *)
    split.
    + intros h Hh. rewrite lookup_insert_ne by lia. apply Hfresh. lia.
    + intros Hg. destruct (Hflag Hg) as (h & t & Ht & Hr). exists h, t. split; [|done].
      rewrite lookup_insert_ne; [done|]. apply Hlt in Ht. lia.
  - (* an accepted submit *)
    split.
    + intros h Hh. rewrite lookup_insert_ne by lia. apply Hfresh. lia.
    + intros _. eexists _, _. by rewrite lookup_insert_eq.
  - (* a reply arrives *)
    split; [|done]. intros h' Hh. rewrite lookup_delete. case_decide; [done|by apply Hfresh].
  - (* the copied marker expires *)
    split.
    + intros h' Hh. rewrite lookup_delete. case_decide; [done|by apply Hfresh].
    + intros Hg. destruct (Hflag Hg) as (h' & t' & Ht' & Hr). exists h', t'. split; [|done].
      rewrite lookup_delete_ne; [done|]. intros <-.
      match goal with H1 : timers0 !! _ = Some ?t, H2 : callback ?t = ClearCopied _ |- _ =>
        rewrite H1 in Ht'; injection Ht' as <-; rewrite H2 in Hr end.
      discriminate.
Qed.

(** X6. The generation flag is never left set without a reply to come: in
    every state reached from one where this holds (the first render is one),
    if the flag is true then the callback of some assistant reply is among
    the pending timers, and no pending timer has a handle that a later
    [setTimeout] will be given. *)
Theorem flag_set_only_while_reply_pending (s : state) (events : list event) :
  flagBacked s ->
  let s' := run s events in
  (isGenerating s' = true ->
   exists h cid m d,
     timers s' !! h = Some {| due := d; callback := Reply cid m |} /\ h < nextTimer s')
  /\ (forall h, nextTimer s' <= h -> timers s' !! h = None).
Proof.
  intros Hs s'.
  assert (flagBacked s') as [Hfresh Hflag].
  { unfold s'. clear s'. revert s Hs.
    induction events as [|e events IH]; intros s Hs; cbn [run foldl]; [done|].
    by apply IH, step_flagBacked. }
  split; [|done]. intros Hg. destruct (Hflag Hg) as (h & [d [cid m|mid]] & Ht & Hr);
    [|discriminate Hr].
  exists h, cid, m, d. split; [done|].
  destruct (decide (h < nextTimer s')) as [|Hge]; [done|].
  rewrite Hfresh in Ht by lia. done.
Qed.

Lemma startReads_images (files : list File) (s : state) :
  map_Forall (fun _ file => startsWith (lit "image/") (f_type file) = true) (reads s) ->
  map_Forall (fun _ file => startsWith (lit "image/") (f_type file) = true)
             (reads (startReads files s))
  /\ composerAttachments (startReads files s) = composerAttachments s.
Proof.
  unfold startReads.
  assert (Forall (fun file => startsWith (lit "image/") (f_type file) = true)
            (List.filter (fun file => startsWith (lit "image/") (f_type file)) files)) as Hall.
  { apply Forall_forall. intros file Hin. by apply list_elem_of_In, filter_In in Hin as [_ ?]. }
  revert Hall. generalize (List.filter (fun file => startsWith (lit "image/") (f_type file)) files).
  intros l Hall. revert s. induction Hall as [|file l Hfile _ IH]; intros s Hs; cbn [foldl];
    [done|].
  destruct (IH (setNextRead S (setReads (fun pending => <[nextRead s := file]> pending) s)))
    as [Hr Hc].
  { destruct s; st_all. by apply map_Forall_insert_2. }
  split; [done|]. rewrite Hc. by destruct s.
Qed.

Lemma step_imagesOnly (s : state) (e : event) : imagesOnly s -> imagesOnly (step s e).
Proof.
  unfold imagesOnly. intros [Hr Hc].
  destruct e; unfold step;
    try (destruct (startReads_images files s Hr) as [Hr' Hc']; split; [done|by rewrite Hc']);
    handlers; repeat case_match; destruct s; st_all; try (split; [done|]; done).
  - (* a reader has loaded *)
    split; [by apply map_Forall_delete|].
    apply Forall_app. split; [done|]. constructor; [|done]. cbn [a_type].
    match goal with H : reads0 !! _ = Some _ |- _ => exact (Hr _ _ H) end.
  - (* a reader has finished without a string *)
    split; [by apply map_Forall_delete|done].
  - (* an attachment is removed *)
    split; [done|]. apply Forall_forall. intros a Ha.
    apply list_elem_of_In, filter_In in Ha as [Ha _].
    rewrite Forall_forall in Hc. by apply Hc, list_elem_of_In.
Qed.

(** X7. Nothing but images is ever staged: only files whose type starts
    with ["image/"] are handed to a reader, and in every state reached from
    one without other files (the first render is one) every pending read and
    every staged attachment has such a type, and so has every attachment of
    the message of an accepted submit. *)
Theorem staged_attachments_are_images (s : state) (events : list event) :
  imagesOnly s ->
  let s' := run s events in
  imagesOnly s'
  /\ (accepted s' ->
      forall attachments a,
        m_attachments (submittedMessage s') = Some attachments -> a ∈ attachments ->
        startsWith (lit "image/") (a_type a) = true).
Proof.
  intros Hs s'.
  assert (imagesOnly s') as Hs'.
  { unfold s'. clear s'. revert s Hs.
    induction events as [|e events IH]; intros s Hs; cbn [run foldl]; [done|].
    by apply IH, step_imagesOnly. }
  split; [done|]. intros _ attachments a. unfold submittedMessage.
  cbn [m_attachments userMessageOf]. rewrite spreadAttachment_id.
  destruct Hs' as [_ Hc]. destruct (composerAttachments s') as [|a0 l] eqn:E; [done|].
  intros [= <-] Ha. rewrite Forall_forall in Hc. by apply Hc.
Qed.

(** ** The composer *)

Lemma trimStart_nil (text : jsstring) :
  trimStart text = [] <-> Forall (fun c => isWhiteSpace c = true) text.
Proof.
  induction text as [|c text IH]; cbn [trimStart]; [done|].
  destruct (isWhiteSpace c) eqn:E.
  - rewrite IH. split; [by constructor|by inversion 1].
  - split; [done|]. inversion 1; congruence.
Qed.

Lemma trimStart_head (text : jsstring) :
  match trimStart text with
  | [] => True
  | c :: _ => isWhiteSpace c = false
  end.
Proof.
  induction text as [|c text IH]; cbn [trimStart]; [done|].
  by destruct (isWhiteSpace c) eqn:E.
Qed.

Lemma trim_nil (text : jsstring) :
  trim text = [] <-> Forall (fun c => isWhiteSpace c = true) text.
Proof.
  unfold trim, trimEnd. rewrite <- trimStart_nil. split.
  - intros H. apply (f_equal (@rev N)) in H. rewrite rev_involutive in H. cbn in H.
    apply trimStart_nil in H. pose proof (trimStart_head text) as Hh.
    destruct (trimStart text) as [|c t]; [done|].
    apply Forall_rev in H. rewrite rev_involutive in H. inversion H; congruence.
  - by intros ->.
Qed.

(** X8. [handleSubmit] does nothing at all when the input holds white space
    only and no attachment is staged, and nothing when a reply is being
    generated; it goes ahead exactly when no reply is being generated and the
    input has a character that is not white space or an attachment is
    staged. *)
Theorem blank_submit_is_ignored (s : state) :
  (Forall (fun c => isWhiteSpace c = true) (input s) -> composerAttachments s = [] ->
   handleSubmit s = s)
  /\ (isGenerating s = true -> handleSubmit s = s)
  /\ (accepted s <->
      isGenerating s = false
      /\ (~ Forall (fun c => isWhiteSpace c = true) (input s) \/ composerAttachments s <> [])).
Proof.
  assert (hasPendingInput s = true <->
          ~ Forall (fun c => isWhiteSpace c = true) (input s) \/ composerAttachments s <> [])
    as Hp.
  { unfold hasPendingInput. rewrite <- trim_nil.
    destruct (trim (input s)) as [|c t], (composerAttachments s) as [|a l]; cbn;
      split; try done; try (intros _; by left); try (intros _; by right).
    intros [H|H]; by destruct H. }
  split; [|split].
  - intros Hblank Hnone. apply handleSubmit_rejected. left.
    destruct (hasPendingInput s) eqn:E; [|done]. destruct Hp as [Hp _].
    destruct (Hp eq_refl) as [H|H]; by destruct H.
  - intros Hg. apply handleSubmit_rejected. by right.
  - unfold accepted. rewrite Hp. tauto.
Qed.

(** X9. When a reader has loaded a file as a string, one attachment is put
    at the end of the buffer, with the file's type and size, the data as
    preview, the file's name or, if that is empty, ["pasted-image-N.png"]
    where [N] is its position in the buffer; the read is over, a second
    completion of it changes nothing. A reader that ends without a string
    stages nothing, and a completion for an unknown reader is ignored. *)
Theorem reader_loaded_stages_attachment (s : state) (r : nat) (file : File) :
  reads s !! r = Some file ->
  (forall preview : jsstring,
     let s' := readerLoaded r (Some preview) s in
     composerAttachments s' =
       composerAttachments s ++
       [ {| a_id := createId_of (random36 (draws s));
            a_name := match f_name file with
                      | [] => lit "pasted-image-"
                                ++ Number_toString (length (composerAttachments s) + 1)
                                ++ lit ".png"
                      | name => name
                      end;
            a_type := f_type file;
            a_size := f_size file;
            a_preview := preview |} ]
     /\ reads s' = delete r (reads s)
     /\ conversations s' = conversations s
     /\ forall result, readerLoaded r result s' = s')
  /\ composerAttachments (readerLoaded r None s) = composerAttachments s
  /\ (forall (r' : nat) result, reads s !! r' = None -> readerLoaded r' result s = s).
Proof.
  intros Hr. split; [|split].
  - intros preview s'. unfold s', readerLoaded, addAttachmentFromFile, createId. rewrite Hr.
    split; [|split; [|split]].
    + destruct s; st_all. f_equal. unfold or_else. by destruct (f_name file).
    + by destruct s.
    + by destruct s.
    + intros result. replace (reads _ !! r) with (@None File); [done|].
      destruct s; st_all. by rewrite lookup_delete_eq.
  - unfold readerLoaded, addAttachmentFromFile. rewrite Hr. by destruct s.
  - intros r' result Hnone. unfold readerLoaded. by rewrite Hnone.
Qed.

Lemma filter_all {A} (p : A -> bool) (l : list A) :
  Forall (fun a => p a = true) l -> List.filter p l = l.
Proof.
  induction 1 as [|a l Ha _ IH]; cbn [List.filter]; [done|]. by rewrite Ha, IH.
Qed.

Lemma filter_filter_same {A} (p : A -> bool) (l : list A) :
  List.filter p (List.filter p l) = List.filter p l.
Proof.
  apply filter_all, Forall_forall. intros a Ha.
  by apply list_elem_of_In, filter_In in Ha as [_ ?].
Qed.

(** X10. [handleRemoveAttachment] takes every staged attachment with the
    identifier out of the buffer and keeps the others in their order; it
    touches nothing else, changes nothing at all when no staged attachment
    has the identifier, and doing it twice is doing it once. *)
Theorem remove_attachment_spec (s : state) (attachmentId : jsstring) :
  let s' := handleRemoveAttachment attachmentId s in
  composerAttachments s' =
    List.filter (fun a => negb (bool_decide (a_id a = attachmentId))) (composerAttachments s)
  /\ (forall a, a ∈ composerAttachments s' <->
                a ∈ composerAttachments s /\ a_id a <> attachmentId)
  /\ s' = setComposerAttachments (fun _ => composerAttachments s') s
  /\ (attachmentId ∉ map a_id (composerAttachments s) -> s' = s)
  /\ handleRemoveAttachment attachmentId s' = s'.
Proof.
  intros s'. unfold s', handleRemoveAttachment. split; [by destruct s|].
  split; [|split; [by destruct s|split]].
  - intros a. replace (composerAttachments _) with
      (List.filter (fun a => negb (bool_decide (a_id a = attachmentId)))
         (composerAttachments s)) by (by destruct s).
    rewrite !list_elem_of_In, filter_In, negb_true_iff, bool_decide_eq_false. done.
  - intros Habsent. destruct s; st_all. f_equal. apply filter_all, Forall_forall.
    intros a Ha. apply negb_true_iff, bool_decide_eq_false. intros Hid. apply Habsent.
    apply list_elem_of_In, in_map_iff. exists a. by rewrite <- list_elem_of_In.
  - destruct s; st_all. f_equal. apply filter_filter_same.
Qed.

(** ** The copied marker, the provider and the model *)

(** X11. A successful copy of a message sets the copied marker to it and
    sets a timer for 2000 ms later; a failed copy clears the marker. As long
    as that timer is pending its callback does nothing before it is due; once
    due it clears the marker only if the marker still shows this message (a
    message copied later keeps its marker), and touches neither the
    conversations nor the generation flag. *)
Theorem copied_marker_lifecycle (s : state) (message : ConversationMessage) :
  let h := nextTimer s in
  let s1 := handleCopy message true s in
  copiedMessageId s1 = Some (m_id message)
  /\ timers s1 !! h = Some {| due := now s + 2000; callback := ClearCopied (m_id message) |}
  /\ copiedMessageId (handleCopy message false s) = None
  /\ timers (handleCopy message false s) = timers s
  /\ forall events : list event,
       let s2 := run s1 events in
       is_Some (timers s2 !! h) ->
       (now s2 < now s + 2000 -> step s2 (EvTimeout h) = s2)
       /\ (now s + 2000 <= now s2 ->
           let s3 := step s2 (EvTimeout h) in
           copiedMessageId s3 =
             (if bool_decide (copiedMessageId s2 = Some (m_id message))
              then None else copiedMessageId s2)
           /\ conversations s3 = conversations s2
           /\ isGenerating s3 = isGenerating s2
           /\ timers s3 !! h = None).
Proof.
  intros h s1.
  assert (timers s1 !! h =
            Some {| due := now s + 2000; callback := ClearCopied (m_id message) |}
          /\ nextTimer s1 = S h) as [Ht Hn].
  { unfold s1, h, handleCopy. destruct s; st. by rewrite lookup_insert_eq. }
  split; [by unfold s1, handleCopy; destruct s|]. split; [done|].
  split; [by unfold handleCopy; destruct s|]. split; [by unfold handleCopy; destruct s|].
  intros events s2 [t Hp].
  assert (t = {| due := now s + 2000; callback := ClearCopied (m_id message) |}) as ->.
  { pose proof (run_timers_back events s1 h t) as Hb. rewrite Hn in Hb.
    specialize (Hb ltac:(lia) Hp). congruence. }
  split.
  - intros Hearly. unfold step. by apply (timeout_early s2 h _ Hp).
  - intros Hlate s3. unfold s3, step, timeout. rewrite Hp. cbn [due callback].
    destruct (now s + 2000 <=? now s2) eqn:E; [|apply Nat.leb_gt in E; lia].
    destruct s2; st. by rewrite lookup_delete_eq.
Qed.

Lemma providers_have_models : Forall (fun provider => models provider <> []) providers.
Proof. repeat constructor; discriminate. Qed.

Lemma activeProvider_models (s : state) : models (activeProvider s) <> [].
Proof.
  unfold activeProvider.
  destruct (List.find _ providers) as [provider|] eqn:E; [|discriminate].
  apply find_some in E as [Hin _]. pose proof providers_have_models as Hall.
  rewrite Forall_forall in Hall. by apply Hall, list_elem_of_In.
Qed.

Lemma find_model (ms : list ModelOption) (i : jsstring) :
  i ∈ map mo_id ms ->
  exists model, List.find (fun model => bool_decide (mo_id model = i)) ms = Some model
                /\ mo_id model = i.
Proof.
  induction ms as [|model ms IH]; cbn [map List.find]; [by intros ?%elem_of_nil|].
  case_bool_decide as Hm; [by exists model|].
  rewrite elem_of_cons. intros [->|Hin]; [done|by apply IH].
Qed.

(** X12. Choosing another provider keeps the selected model when the new
    provider offers a model with that identifier and takes the provider's
    first model otherwise, so the selected model is then always one of the
    active provider's, the one the reply is labelled with; an unknown
    provider identifier falls back to the first provider. Choosing the
    provider that is selected already changes nothing. *)
Theorem provider_change_keeps_model_valid (s : state) (providerId : jsstring) :
  let s' := selectProvider providerId s in
  (providerId = selectedProviderId s -> s' = s)
  /\ (providerId <> selectedProviderId s ->
      selectedProviderId s' = providerId
      /\ selectedModelId s' ∈ map mo_id (models (activeProvider s'))
      /\ mo_id (activeModel s') = selectedModelId s'
      /\ (selectedModelId s ∈ map mo_id (models (activeProvider s')) ->
          selectedModelId s' = selectedModelId s)
      /\ (selectedModelId s ∉ map mo_id (models (activeProvider s')) ->
          selectedModelId s' = mo_id (firstModel (activeProvider s'))))
  /\ (providerId ∉ map p_id providers -> activeProvider s' = provider0).
Proof.
  intros s'. split; [|split].
  - intros ->. unfold s', selectProvider. by rewrite bool_decide_eq_true_2.
  - intros Hne. unfold s', selectProvider. rewrite bool_decide_eq_false_2 by done. cbv zeta.
    set (s1 := setSelectedProviderId (fun _ => providerId) s).
    assert (forall f, activeProvider (setSelectedModelId f s1) = activeProvider s1) as Hap.
    { intros f. unfold activeProvider. by destruct s. }
    assert (selectedModelId s1 = selectedModelId s) as Hsm by (by destruct s).
    assert (forall f, selectedModelId (setSelectedModelId f s1) = f (selectedModelId s))
      as Hset.
    { intros f. by destruct s. }
    set (provider := activeProvider s1) in *.
    pose proof (activeProvider_models s1) as Hmodels. fold provider in Hmodels.
    split; [by destruct s|].
    rewrite Hap, Hset. fold provider.
    assert (existsb (fun model => bool_decide (mo_id model = selectedModelId s))
                    (models provider) = true
            <-> selectedModelId s ∈ map mo_id (models provider)) as Hex.
    { rewrite existsb_exists, list_elem_of_In, in_map_iff. split.
      - intros (model & Hin & Hid). apply bool_decide_eq_true in Hid. by exists model.
      - intros (model & Hid & Hin). exists model. split; [done|]. by apply bool_decide_eq_true. }
    assert ((if existsb (fun model => bool_decide (mo_id model = selectedModelId s))
                        (models provider)
             then selectedModelId s else mo_id (firstModel provider))
            ∈ map mo_id (models provider)) as Hvalid.
    { destruct (existsb _ (models provider)) eqn:E; [by apply Hex|].
      unfold firstModel. destruct (models provider) as [|model ms]; [done|].
      cbn [map]. by left. }
    split; [done|]. split; [|split].
    + unfold activeModel. rewrite Hap, Hset. fold provider.
      destruct (find_model _ _ Hvalid) as (model & -> & Hid). done.
    + intros Hin. apply Hex in Hin. by rewrite Hin.
    + intros Hnin. destruct Hex as [Hex _].
      destruct (existsb _ (models provider)) eqn:E; [|done]. by destruct Hnin; apply Hex.
  - intros Hunknown. unfold s', selectProvider.
    assert (forall t, selectedProviderId t = providerId -> activeProvider t = provider0) as Hfb.
    { intros t Ht. unfold activeProvider. rewrite Ht.
      destruct (List.find _ providers) as [provider|] eqn:E; [|done].
      apply find_some in E as [Hin Hid]. apply bool_decide_eq_true in Hid.
      exfalso. apply Hunknown. apply list_elem_of_In, in_map_iff. by exists provider. }
    case_bool_decide as Hsame; [by apply Hfb|]. apply Hfb. by destruct s.
Qed.

(** ** New chats, selection and the history index *)

Lemma createInitialMessages_run (k : nat) :
  snd (createInitialMessages k) = k + 3
  /\ map m_id (fst (createInitialMessages k)) =
       [createId_of (random36 k); createId_of (random36 (S k));
        createId_of (random36 (S (S k)))]
  /\ map m_role (fst (createInitialMessages k)) = [assistant; user; assistant]
  /\ map m_content (fst (createInitialMessages k)) = map t_content messageTemplates
  /\ map m_attachments (fst (createInitialMessages k)) = [None; Some []; None]
  /\ map m_reaction (fst (createInitialMessages k)) = [None; None; None].
Proof.
  unfold createInitialMessages, messageTemplates.
  cbn [mapR bind ret createId fst snd map m_id m_role m_content m_attachments m_reaction
       t_role t_content].
  repeat split. lia.
Qed.

(** The promoted summary goes in front of the summary that leads the first
    group, when that is another conversation's. *)
Lemma promoteConversation_before_head (first : HistoryGroup) (rest : list HistoryGroup)
    (c1 : HistoryConversation) (l : list HistoryConversation) (cid : jsstring)
    (updater : option HistoryConversation -> HistoryConversation) :
  g_conversations first = c1 :: l -> h_id c1 <> cid ->
  h_id c1 <> h_id (updater (findSummary (first :: rest) cid)) ->
  exists first' rest' others,
    promoteConversation (first :: rest) cid updater = first' :: rest'
    /\ g_conversations first' = updater (findSummary (first :: rest) cid) :: c1 :: others.
Proof.
  intros Hfirst Hne Hne'. rewrite promoteConversation_unfold. cbv zeta.
  cbn [extractConversation]. rewrite Hfirst. cbn [findIndex].
  rewrite bool_decide_eq_false_2 by done.
  destruct (findIndex _ l) as [index|]; cbn [fmap option_fmap option_map].
  - cbn [fst g_conversations delete list_delete List.filter].
    rewrite bool_decide_eq_false_2 by done. cbn [negb]. by eexists _, _, _.
  - destruct (extractConversation rest cid) as [rest' existing]. cbn [fst].
    rewrite Hfirst. cbn [List.filter]. rewrite bool_decide_eq_false_2 by done.
    cbn [negb]. by eexists _, _, _.
Qed.

Lemma promoteConversation_head (groups : list HistoryGroup) (cid : jsstring)
    (updater : option HistoryConversation -> HistoryConversation) :
  exists first rest others,
    promoteConversation groups cid updater = first :: rest
    /\ g_conversations first = updater (findSummary groups cid) :: others.
Proof.
  rewrite promoteConversation_unfold. cbv zeta.
  destruct (fst (extractConversation groups cid)) as [|first rest]; by eexists _, _, _.
Qed.

Lemma handleNewChat_fields (s : state) :
  let s' := handleNewChat s in
  let conversationId := createId_of (random36 (draws s)) in
  let title := lit "Untitled chat " ++ Number_toString (chatCounter s) in
  activeConversationId s' = conversationId
  /\ activeConversationTitle s' = title
  /\ chatCounter s' = chatCounter s + 1
  /\ draws s' = draws s + 4
  /\ conversations s' =
       <[conversationId := fst (createInitialMessages (S (draws s)))]> (conversations s)
  /\ historyGroups s' =
       promoteConversation (historyGroups s) conversationId (fun _ =>
         {| h_id := conversationId; h_title := title;
            h_preview := lit "Say hello to Nova to get started.";
            h_timestamp := lit "Just now" |})
  /\ composerAttachments s' = [] /\ input s' = [] /\ copiedMessageId s' = None
  /\ isGenerating s' = false
  /\ timers s' = timers s.
Proof.
  cbv zeta. unfold handleNewChat, createId.
  destruct (createInitialMessages_run (S (draws s))) as (Hk & _).
  destruct (createInitialMessages (S (draws s))) as [msgs k] eqn:E. cbn [fst snd] in *.
  subst k. destruct s; st_all. repeat split. lia.
Qed.

(** X13. A new chat becomes the active conversation, titled
    ["Untitled chat N"] with [N] the chat counter, which goes up by one; it
    gets the three introductory messages in the store and the front place of
    the first group of the history; the composer is cleared, the generation
    flag reset, and no pending timer is cancelled. Of two new chats in a row
    with different identifiers, the second one stands right before the first
    in the history, with the next number in its title. *)
Theorem new_chat_spec (s : state) :
  let s1 := handleNewChat s in
  let s2 := handleNewChat s1 in
  let i1 := activeConversationId s1 in
  let i2 := activeConversationId s2 in
  i1 = createId_of (random36 (draws s))
  /\ activeConversationTitle s1 = lit "Untitled chat " ++ Number_toString (chatCounter s)
  /\ activeConversationTitle s2 = lit "Untitled chat " ++ Number_toString (chatCounter s + 1)
  /\ chatCounter s2 = chatCounter s + 2
  /\ (exists msgs, conversations s1 !! i1 = Some msgs
                   /\ map m_role msgs = [assistant; user; assistant]
                   /\ map m_content msgs = map t_content messageTemplates)
  /\ (composerAttachments s1 = [] /\ input s1 = [] /\ isGenerating s1 = false
      /\ timers s1 = timers s)
  /\ (exists first rest c1 others,
        historyGroups s1 = first :: rest /\ g_conversations first = c1 :: others
        /\ h_id c1 = i1 /\ h_title c1 = activeConversationTitle s1)
  /\ (i1 <> i2 ->
      exists first rest c2 c1 others,
        historyGroups s2 = first :: rest /\ g_conversations first = c2 :: c1 :: others
        /\ h_id c2 = i2 /\ h_id c1 = i1
        /\ h_title c2 = activeConversationTitle s2
        /\ h_title c1 = activeConversationTitle s1).
Proof.
  intros s1 s2 i1 i2.
  destruct (handleNewChat_fields s)
    as (Ha1 & Ht1 & Hc1 & Hd1 & Hs1 & Hh1 & Hb1 & Hin1 & _ & Hg1 & Htm1).
  destruct (handleNewChat_fields s1) as (Ha2 & Ht2 & Hc2 & _ & _ & Hh2 & _).
  cbv zeta in *. fold s1 in Ha1, Ht1, Hc1, Hd1, Hs1, Hh1, Hb1, Hin1, Hg1, Htm1.
  fold s2 in Ha2, Ht2, Hc2, Hh2. fold i1 in Ha1. fold i2 in Ha2.
  split; [done|]. split; [done|]. split; [by rewrite Ht2, Hc1|].
  split; [rewrite Hc2, Hc1; lia|]. split.
  { eexists. rewrite Hs1, <- Ha1, lookup_insert_eq. split; [done|].
    destruct (createInitialMessages_run (S (draws s))) as (_ & _ & Hr & Hc & _). done. }
  split; [done|].
  destruct (promoteConversation_head (historyGroups s) (createId_of (random36 (draws s)))
              (fun _ => {| h_id := createId_of (random36 (draws s));
                           h_title := lit "Untitled chat " ++ Number_toString (chatCounter s);
                           h_preview := lit "Say hello to Nova to get started.";
                           h_timestamp := lit "Just now" |}))
    as (first & rest & others & Hp & Hf).
  rewrite <- Hh1 in Hp. split.
  { eexists first, rest, _, others. split; [done|]. split; [exact Hf|].
    cbn [h_id h_title]. by rewrite Ha1, Ht1. }
  intros Hne. match type of Hh2 with _ = promoteConversation _ _ ?u => set (u2 := u) in * end.
  rewrite Hh2, Hp.
  match type of Hf with _ = ?c :: _ => set (c1 := c) in * end.
  destruct (promoteConversation_before_head first rest c1 others
              (createId_of (random36 (draws s1))) u2) as (first' & rest' & others' & Hp' & Hf').
  { exact Hf. }
  { unfold c1. cbn [h_id]. rewrite <- Ha1, <- Ha2. exact Hne. }
  { unfold c1, u2. cbv beta. cbn [h_id]. rewrite <- Ha1, <- Ha2. exact Hne. }
  rewrite Hp'. eexists first', rest', _, _, others'. split; [done|]. split; [exact Hf'|].
  unfold c1, u2. cbv beta. cbn [h_id h_title]. by rewrite Ha1, Ha2, Ht1, Ht2.
Qed.

(** X14. An accepted submit puts the summary of the active conversation at
    the front of the first group of the history, with the title shown in the
    header, the (truncated) content of the message as preview and the time
    stamp ["Just now"]; the title that the index gives for the conversation
    is then that title. The composer is cleared, the marker of the copied
    message too, and the conversation stays active. *)
Theorem submit_promotes_active_conversation (s : state) :
  accepted s ->
  let s' := handleSubmit s in
  (exists first rest others,
     historyGroups s' = first :: rest
     /\ g_conversations first = submittedSummary s :: others)
  /\ findConversationTitle (historyGroups s') (activeConversationId s)
     = activeConversationTitle s
  /\ length (h_preview (submittedSummary s)) <= 81
  /\ input s' = [] /\ composerAttachments s' = [] /\ copiedMessageId s' = None
  /\ isGenerating s' = true
  /\ activeConversationId s' = activeConversationId s
  /\ draws s' = draws s + 2.
Proof.
  intros Ha s'.
  set (updater := fun existing : option HistoryConversation =>
         {| h_id := match existing with Some e => h_id e | None => activeConversationId s end;
            h_title := activeConversationTitle s;
            h_preview := truncateText (m_content (submittedMessage s));
            h_timestamp := lit "Just now" |}).
  assert (historyGroups s' =
            promoteConversation (historyGroups s) (activeConversationId s) updater) as Hh.
  { unfold s'. rewrite handleSubmit_accepted by done.
    unfold refreshHistoryPreview, updateConversationMessages. by destruct s. }
  assert (updater (findSummary (historyGroups s) (activeConversationId s)) = submittedSummary s)
    as Hu.
  { unfold updater, submittedSummary. f_equal.
    destruct (findSummary _ _) as [e|] eqn:E; [by eapply findSummary_id|done]. }
  split; [|split; [|split]].
  - destruct (promoteConversation_head (historyGroups s) (activeConversationId s) updater)
      as (first & rest & others & Hp & Hf).
    exists first, rest, others. by rewrite Hh, Hp, Hf, Hu.
  - rewrite Hh. rewrite promoteConversation_unfold. cbv zeta. rewrite Hu.
    destruct (fst (extractConversation _ _)) as [|first rest];
      cbn [findConversationTitle g_conversations List.find submittedSummary h_id];
      by rewrite bool_decide_eq_true_2.
  - cbn [submittedSummary h_preview]. unfold truncateText, slice.
    destruct (length _ <=? 80) eqn:E; [apply Nat.leb_le in E; lia|].
    rewrite length_app, length_take. unfold ellipsis. cbn [length]. lia.
  - unfold s'. rewrite handleSubmit_accepted by done.
    unfold refreshHistoryPreview, updateConversationMessages. destruct s; st.
    repeat split. lia.
Qed.

(** ** The store at startup *)

Lemma seedConversation_lookup (primaryId : option jsstring)
    (m : gmap jsstring (list ConversationMessage)) (c : HistoryConversation) (k : nat) :
  (exists msgs, fst (seedConversation primaryId m c k) !! h_id c = Some msgs
                /\ seededWith primaryId c msgs)
  /\ (forall x, x <> h_id c -> fst (seedConversation primaryId m c k) !! x = m !! x).
Proof.
  unfold seedConversation, seededWith, bind, ret.
  destruct (bool_decide (Some (h_id c) = primaryId)) eqn:E.
  - destruct (createInitialMessages k) as [msgs k'] eqn:Ek. cbn [fst]. split.
    + exists msgs. rewrite lookup_insert_eq. split; [done|]. exists k. by rewrite Ek.
    + intros x Hx. by rewrite lookup_insert_ne.
  - destruct (createPlaceholderConversation _ _ k) as [msgs k'] eqn:Ek. cbn [fst]. split.
    + exists msgs. rewrite lookup_insert_eq. split; [done|]. exists k. by rewrite Ek.
    + intros x Hx. by rewrite lookup_insert_ne.
Qed.

Lemma foldR_seed_lookup (primaryId : option jsstring) (cs : list HistoryConversation)
    (m : gmap jsstring (list ConversationMessage)) (k : nat) :
  NoDup (map h_id cs) ->
  (forall c, c ∈ cs ->
     exists msgs, fst (foldR (seedConversation primaryId) cs m k) !! h_id c = Some msgs
                  /\ seededWith primaryId c msgs)
  /\ (forall x, x ∉ map h_id cs ->
        fst (foldR (seedConversation primaryId) cs m k) !! x = m !! x).
Proof.
  revert m k. induction cs as [|c0 cs IH]; intros m k Hnd; cbn [foldR map] in *.
  - split; [by intros c ?%elem_of_nil|done].
  - apply NoDup_cons in Hnd as [Hc0 Hnd]. unfold bind.
    destruct (seedConversation_lookup primaryId m c0 k) as [Hhit Hmiss].
    destruct (seedConversation primaryId m c0 k) as [m1 k1]. cbn [fst] in *.
    destruct (IH m1 k1 Hnd) as [IHhit IHmiss]. split.
    + intros c [->|Hc]%elem_of_cons; [|by apply IHhit].
      destruct Hhit as (msgs & Hl & Hs). exists msgs. split; [|done].
      by rewrite IHmiss.
    + intros x [Hx0 Hx]%not_elem_of_cons. rewrite IHmiss by done. by apply Hmiss.
Qed.

Lemma foldR_seed_miss (primaryId : option jsstring) (cs : list HistoryConversation)
    (m : gmap jsstring (list ConversationMessage)) (k : nat) (x : jsstring) :
  x ∉ map h_id cs -> fst (foldR (seedConversation primaryId) cs m k) !! x = m !! x.
Proof.
  revert m k. induction cs as [|c cs IH]; intros m k Hx; cbn [foldR map] in *; [done|].
  apply not_elem_of_cons in Hx as [Hc Hx]. unfold bind.
  destruct (seedConversation_lookup primaryId m c k) as [_ Hmiss].
  destruct (seedConversation primaryId m c k) as [m1 k1]. cbn [fst] in *.
  rewrite IH by done. by apply Hmiss.
Qed.

Lemma foldR_groups_miss (primaryId : option jsstring) (groups : list HistoryGroup)
    (m : gmap jsstring (list ConversationMessage)) (k : nat) (x : jsstring) :
  x ∉ all_ids groups ->
  fst (foldR (fun map section =>
                foldR (seedConversation primaryId) (g_conversations section) map)
             groups m k) !! x = m !! x.
Proof.
  revert m k. induction groups as [|g groups IH]; intros m k Hx; [done|].
  rewrite all_ids_cons, elem_of_app in Hx. cbn [foldR]. unfold bind at 1.
  pose proof (foldR_seed_miss primaryId (g_conversations g) m k x) as Hg.
  destruct (foldR (seedConversation primaryId) (g_conversations g) m k) as [m1 k1].
  cbn [fst] in *. rewrite IH by tauto. apply Hg. tauto.
Qed.

(** X15. [buildInitialConversationMap], on an index without duplicates,
    gives the store an entry for every conversation of the index and for
    nothing else: the first conversation of the first group gets the
    introductory messages, every other conversation a single placeholder
    message with its own title and preview. *)
Theorem initial_store_entries (groups : list HistoryGroup) (k : nat) :
  NoDup (all_ids groups) ->
  let store := fst (buildInitialConversationMap groups k) in
  (forall x, is_Some (store !! x) <-> x ∈ all_ids groups)
  /\ (forall section c,
        section ∈ groups -> c ∈ g_conversations section ->
        exists msgs,
          store !! h_id c = Some msgs
          /\ (Some (h_id c) = primaryIdOf groups ->
              map m_role msgs = [assistant; user; assistant]
              /\ map m_content msgs = map t_content messageTemplates)
          /\ (Some (h_id c) <> primaryIdOf groups ->
              exists m, msgs = [m] /\ m_role m = assistant
                        /\ m_content m = placeholderContent (h_title c) (h_preview c))).
Proof.
  intros Hnd store. split; [intros x; apply buildInitialConversationMap_dom|].
  assert (forall m k' section c,
            section ∈ groups -> c ∈ g_conversations section ->
            exists msgs,
              fst (foldR (fun map section =>
                            foldR (seedConversation (primaryIdOf groups))
                                  (g_conversations section) map) groups m k')
                !! h_id c = Some msgs
              /\ seededWith (primaryIdOf groups) c msgs) as Hall.
  { generalize (primaryIdOf groups). intros primaryId. clear store.
    induction groups as [|g groups IH]; intros m k' section c Hsection Hc;
      [by apply elem_of_nil in Hsection|].
    rewrite all_ids_cons in Hnd. apply NoDup_app in Hnd as (Hnd1 & Hdisj & Hnd2).
    cbn [foldR]. unfold bind at 1.
    destruct (foldR_seed_lookup primaryId (g_conversations g) m k' Hnd1) as [Hhit _].
    destruct (foldR (seedConversation primaryId) (g_conversations g) m k') as [m1 k1].
    cbn [fst] in Hhit.
    apply elem_of_cons in Hsection as [->|Hsection]; [|by eapply IH].
    destruct (Hhit c Hc) as (msgs & Hl & Hs). exists msgs. split; [|done].
    rewrite foldR_groups_miss; [done|]. apply Hdisj. apply list_elem_of_In, in_map, list_elem_of_In, Hc. }
  intros section c Hsection Hc.
  destruct (Hall ∅ k section c Hsection Hc) as (msgs & Hl & k' & Hs).
  exists msgs. split; [done|]. split.
  - intros Hp. rewrite bool_decide_eq_true_2 in Hs by done. subst msgs.
    destruct (createInitialMessages_run k') as (_ & _ & Hr & Hcn & _). done.
  - intros Hp. rewrite bool_decide_eq_false_2 in Hs by done. subst msgs.
    eexists. split; [reflexivity|]. done.
Qed.

(** ** Reactions and selection *)

Lemma withReaction_toggle (messageId : jsstring) (reaction : Reaction)
    (message : ConversationMessage) :
  withReaction None (toggleMessage messageId reaction message) = withReaction None message.
Proof. unfold toggleMessage. by destruct (bool_decide _). Qed.

(** X16. A reaction changes reactions only: the messages of the active
    conversation keep their number, order, identifiers, contents and
    attachments, and the history, the composer, the timers and the flag are
    not touched. When the active conversation has no entry in the store, the
    toggle gives it an empty one. *)
Theorem reaction_changes_reactions_only (s : state) (messageId : jsstring)
    (reaction : Reaction) :
  let s' := toggleReaction messageId reaction s in
  map (withReaction None) (messages s') = map (withReaction None) (messages s)
  /\ length (messages s') = length (messages s)
  /\ s' = setConversations (fun _ => conversations s') s
  /\ (conversations s !! activeConversationId s = None ->
      conversations s' = <[activeConversationId s := []]> (conversations s)).
Proof.
  intros s'. destruct (toggleReaction_messages messageId reaction s) as (Hm & _ & _).
  fold s' in Hm. split; [|split; [|split]].
  - rewrite Hm, map_map. apply map_ext. intros m. apply withReaction_toggle.
  - by rewrite Hm, length_map.
  - unfold s', toggleReaction, updateConversationMessages. by destruct s.
  - intros Hnone. unfold s', toggleReaction, updateConversationMessages.
    destruct s; st_all. by rewrite Hnone.
Qed.

(** X17. Selecting a conversation makes it the active one with the title of
    the summary that was passed, clears the composer and the copied marker,
    resets the generation flag without cancelling any pending timer, and
    makes sure that the conversation has an entry in the store. In the
    history it puts the summary that the index already has for the
    identifier (the first one), and the passed one only when there is none,
    at the front of the first group. *)
Theorem select_conversation_spec (s : state) (c : HistoryConversation) :
  let s' := handleSelectConversation c s in
  activeConversationId s' = h_id c
  /\ activeConversationTitle s' = h_title c
  /\ (composerAttachments s' = [] /\ input s' = [] /\ copiedMessageId s' = None)
  /\ isGenerating s' = false
  /\ timers s' = timers s
  /\ is_Some (conversations s' !! h_id c)
  /\ (forall x, is_Some (conversations s !! x) -> conversations s' !! x = conversations s !! x)
  /\ exists first rest others,
       historyGroups s' = first :: rest
       /\ g_conversations first =
            match findSummary (historyGroups s) (h_id c) with
            | Some e => e
            | None => c
            end :: others.
Proof.
  intros s'.
  destruct (promoteConversation_head (historyGroups s) (h_id c) (fun existing =>
              match existing with Some e => e | None => spreadConversation c end))
    as (first & rest & others & Hp & Hf).
  rewrite spreadConversation_id in Hf.
  unfold s', handleSelectConversation, materialize, createPlaceholderConversation, bind, ret,
    createId.
  destruct s; st_all.
  destruct (conversations0 !! h_id c) as [msgs|] eqn:E; st.
  - rewrite E. repeat split; try done; try by eexists.
    exists first, rest, others. by rewrite Hp, Hf.
  - rewrite lookup_insert_eq. repeat split; try done; try by eexists.
    + intros x [msgs Hx]. rewrite lookup_insert_ne; [done|]. intros <-. congruence.
    + exists first, rest, others. by rewrite Hp, Hf.
Qed.

(** ** Pasted and uploaded files *)

Lemma foldl_reads (l : list File) (s : state) :
  let s' := foldl (fun s file =>
                     s |> setReads (fun pending => <[nextRead s := file]> pending)
                       |> setNextRead S) s l in
  nextRead s' = nextRead s + length l
  /\ (forall i file, l !! i = Some file -> reads s' !! (nextRead s + i) = Some file)
  /\ (forall r, r < nextRead s -> reads s' !! r = reads s !! r)
  /\ s' = setNextRead (fun _ => nextRead s') (setReads (fun _ => reads s') s).
Proof.
  revert s. induction l as [|file l IH]; intros s; cbn [foldl length].
  - cbv zeta. split; [lia|]. split; [done|]. split; [done|]. by destruct s.
  - set (s1 := setNextRead S (setReads (fun pending => <[nextRead s := file]> pending) s)).
    destruct (IH s1) as (Hn & Hi & Hr & Hs). cbv zeta in *.
    assert (nextRead s1 = S (nextRead s)) as Hn1 by (by destruct s).
    assert (reads s1 = <[nextRead s := file]> (reads s)) as Hr1 by (by destruct s).
    split; [lia|]. split; [|split].
    + intros [|i] f Hf; cbn in Hf.
      * injection Hf as ->. rewrite Nat.add_0_r, Hr by lia.
        by rewrite Hr1, lookup_insert_eq.
      * replace (nextRead s + S i) with (nextRead s1 + i) by lia. by apply Hi.
    + intros r Hlt. rewrite Hr by lia. rewrite Hr1. by rewrite lookup_insert_ne by lia.
    + rewrite Hs at 1. unfold s1. by destruct s.
Qed.

(** X18. Pasting or uploading files starts one read per image file, in the
    order of the files, each under a new handle, and leaves the reads that
    were pending and everything else as it was; files of another type are
    ignored, and without an image file nothing changes at all. *)
Theorem paste_starts_one_read_per_image (s : state) (files : list File) :
  let images := List.filter (fun file => startsWith (lit "image/") (f_type file)) files in
  let s' := startReads files s in
  nextRead s' = nextRead s + length images
  /\ (forall i file, images !! i = Some file -> reads s' !! (nextRead s + i) = Some file)
  /\ (forall r, r < nextRead s -> reads s' !! r = reads s !! r)
  /\ s' = setNextRead (fun _ => nextRead s') (setReads (fun _ => reads s') s)
  /\ (images = [] -> s' = s).
Proof.
  intros images s'. unfold s', startReads. fold images.
  destruct (foldl_reads images s) as (Hn & Hi & Hr & Hs). cbv zeta in *.
  split; [done|]. split; [done|]. split; [done|]. split; [done|].
  by intros ->.
Qed.

(** ** The copy of the history index *)

Lemma cloneConversation_cell (h h' : list Heap.obj) (l l' : nat) :
  Heap.cloneConversation l h = Some (l', h') ->
  l' = length h /\ exists c, h' = h ++ [Heap.OSummary c].
Proof.
  unfold Heap.cloneConversation, Heap.loadSummary, Heap.mbind, Heap.load.
  destruct (h !! l) as [[c| | |]|]; cbn [Heap.mret Heap.mfail]; try done.
  unfold Heap.alloc. intros [= <- <-]. split; [done|]. by eexists.
Qed.

(** [{ ...conversation }] puts every summary in a cell of its own: the
    copies of an array of summaries are the next cells of the store, one for
    each element. *)
Lemma mapM_cloneConversation_cells (h h' : list Heap.obj) (elems copies : list nat) :
  Heap.mapM Heap.cloneConversation elems h = Some (copies, h') ->
  copies = seq (length h) (length elems)
  /\ length h' = length h + length elems
  /\ h `prefix_of` h'.
Proof.
  revert h h' copies. induction elems as [|l elems IH]; intros h h' copies;
    cbn [Heap.mapM length seq].
  - intros [= <- <-]. split; [done|]. split; [lia|done].
  - unfold Heap.mbind at 1.
    destruct (Heap.cloneConversation l h) as [[l' h1]|] eqn:Hc; [|done].
    apply cloneConversation_cell in Hc as (-> & c & ->). unfold Heap.mbind.
    destruct (Heap.mapM Heap.cloneConversation elems (h ++ [Heap.OSummary c]))
      as [[rest h1]|] eqn:E; [|done].
    cbn [Heap.mret]. intros [= <- <-].
    destruct (IH _ _ _ E) as (-> & Hlen & Hp). rewrite length_app in *. cbn [length] in *.
    split; [by rewrite Nat.add_1_r|]. split; [lia|].
    etrans; [|done]. by apply prefix_app_r.
Qed.

(** The copy of a section holds new summary objects only; what is allocated
    later does not change that. *)
Lemma cloneSection_cells (h h' : list Heap.obj) (l section : nat) :
  Heap.cloneSection l h = Some (section, h') ->
  exists n,
    length h + n < section /\ length h' = S section /\ h `prefix_of` h'
    /\ forall h'', h' `prefix_of` h'' ->
                   Heap.conversationsAt h'' section = seq (length h) n.
Proof.
  unfold Heap.cloneSection, Heap.loadGroup, Heap.loadArray, Heap.mbind, Heap.load.
  destruct (h !! l) as [[| label cl | |]|]; cbn [Heap.mret Heap.mfail fst snd]; try done.
  destruct (h !! cl) as [[| | elems |]|]; cbn [Heap.mret Heap.mfail]; try done.
  destruct (Heap.mapM Heap.cloneConversation elems h) as [[copies h1]|] eqn:E; [|done].
  unfold Heap.alloc. intros [= <- <-].
  destruct (mapM_cloneConversation_cells _ _ _ _ E) as (-> & Hlen & Hp).
  exists (length elems). rewrite !length_app. cbn [length].
  split; [lia|]. split; [lia|]. split.
  { etrans; [done|]. rewrite <- app_assoc. by apply prefix_app_r. }
  intros h'' Hp''. unfold Heap.conversationsAt, Heap.elemsAt.
  set (copies := seq (length h) (length elems)) in *.
  assert (h'' !! (length h1 + 1) = Some (Heap.OGroup label (length h1))) as ->.
  { eapply prefix_lookup_Some; [|done].
    rewrite lookup_app_r; rewrite length_app; cbn [length]; [|lia].
    by rewrite Nat.sub_diag. }
  assert (h'' !! length h1 = Some (Heap.OArray copies)) as ->; [|done].
  eapply prefix_lookup_Some; [|done]. rewrite <- app_assoc.
  by rewrite lookup_app_r, Nat.sub_diag.
Qed.

(** The copies of the sections hold new summary objects only, each in one
    place. *)
Lemma mapM_cloneSection_cells (h h' : list Heap.obj) (sections copies : list nat) :
  Heap.mapM Heap.cloneSection sections h = Some (copies, h') ->
  h `prefix_of` h'
  /\ forall h'', h' `prefix_of` h'' ->
        Forall (fun c => length h <= c < length h') (Heap.summaryCells h'' copies)
        /\ NoDup (Heap.summaryCells h'' copies).
Proof.
  revert h h' copies. induction sections as [|l sections IH]; intros h h' copies;
    cbn [Heap.mapM].
  - intros [= <- <-]. split; [done|]. intros h'' _. split; [constructor|apply NoDup_nil_2].
  - unfold Heap.mbind at 1.
    destruct (Heap.cloneSection l h) as [[section h1]|] eqn:Hs; [|done].
    unfold Heap.mbind.
    destruct (Heap.mapM Heap.cloneSection sections h1) as [[rest h2]|] eqn:Hr; [|done].
    cbn [Heap.mret]. intros [= <- <-].
    destruct (cloneSection_cells _ _ _ _ Hs) as (n & Hn & Hlen & Hp & Hcells).
    destruct (IH _ _ _ Hr) as (Hp' & Hrest).
    pose proof (prefix_length _ _ Hp'). pose proof (prefix_length _ _ Hp).
    split; [by etrans|]. intros h'' Hp''.
    destruct (Hrest h'' Hp'') as [Hall Hnd].
    unfold Heap.summaryCells in *. cbn [map concat].
    rewrite (Hcells h'') by (by etrans). split.
    + apply Forall_app. split.
      * apply Forall_forall. intros c Hc%elem_of_seq. lia.
      * eapply Forall_impl; [exact Hall|]. intros c Hc. cbn in Hc. lia.
    + apply NoDup_app. split; [apply NoDup_seq|]. split; [|done].
      intros c Hc%elem_of_seq Hc'.
      rewrite Forall_forall in Hall. apply Hall in Hc'. lia.
Qed.

(** An index that the store holds has as many summary objects as
    conversations. *)
Lemma owns_summaryCells (h : list Heap.obj) (lo hi : nat) (sections : list nat)
    (gs : list HistoryGroup) :
  Heap.owns h lo hi sections gs ->
  length (Heap.summaryCells h sections) = length (all_ids gs).
Proof.
  induction 1 as [|lo mid hi section sections g gs label cl elems Hs Hc Hr Hl ? ? ? ? ? Hown IH];
    [done|].
  unfold Heap.summaryCells in *. rewrite all_ids_cons. cbn [map concat].
  rewrite !length_app, IH. f_equal.
  unfold Heap.conversationsAt, Heap.elemsAt. rewrite Hs, Hc.
  apply readAll_Some, Forall2_length in Hr. by rewrite length_map.
Qed.

(** X19. [cloneHistoryGroups] is a deep copy: on the values it gives the
    index back as it is; on the store it succeeds on every array that reads
    as an index, writes no existing cell, and returns a new array of new
    section objects with new [conversations] arrays that reads as the same
    index, while the array it was given still does. The summaries are copied
    too: every summary object of the copy is a new cell, the copy has one for
    each conversation of the index, and no two places of the copy share
    one. *)
Theorem clone_is_a_deep_copy (groups : list HistoryGroup) :
  cloneHistoryGroups groups = groups
  /\ forall (h : list Heap.obj) (l : nat),
       Heap.readGroups h l = Some groups ->
       exists next h' copies,
         Heap.cloneHistoryGroups l h = Some (next, h')
         /\ h `prefix_of` h'
         /\ length h <= next
         /\ h' !! next = Some (Heap.OArray copies)
         /\ Heap.owns h' (length h) next copies groups
         /\ Heap.readGroups h' next = Some groups
         /\ Heap.readGroups h' l = Some groups
         /\ Forall (fun c => length h <= c < next) (Heap.summaryCells h' copies)
         /\ NoDup (Heap.summaryCells h' copies)
         /\ length (Heap.summaryCells h' copies) = length (all_ids groups).
Proof.
  split; [apply cloneHistoryGroups_id|]. intros h l Hread.
  destruct (cloneHistoryGroups_run h l groups Hread) as (copies & h1 & Hrun & Hp & Hown).
  exists (length h1), (h1 ++ [Heap.OArray copies]), copies.
  assert (h `prefix_of` h1 ++ [Heap.OArray copies]) as Hp'.
  { etrans; [done|]. by apply prefix_app_r. }
  split; [done|]. split; [done|]. split; [by apply prefix_length|].
  split; [apply lookup_snoc|]. split; [done|]. split; [|split].
  - unfold Heap.readGroups. rewrite lookup_snoc. by eapply owns_read.
  - eapply readGroups_mono; [|done]. intros a Ha.
    destruct (h !! a) as [o|] eqn:E; [by eapply prefix_lookup_Some|].
    apply lookup_ge_None in E. lia.
  - assert (exists sections,
              Heap.mapM Heap.cloneSection sections h = Some (copies, h1)) as (sections & Hmap).
    { revert Hrun. unfold Heap.cloneHistoryGroups, Heap.loadArray, Heap.mbind, Heap.load.
      destruct (h !! l) as [[| | sections |]|]; cbn [Heap.mret Heap.mfail]; try done.
      destruct (Heap.mapM Heap.cloneSection sections h) as [[copies' h2]|] eqn:E; [|done].
      unfold Heap.alloc. intros [= Hlen Hh]. apply app_inj_tail in Hh as [-> [= ->]].
      by exists sections. }
    destruct (mapM_cloneSection_cells _ _ _ _ Hmap) as (_ & Hcells).
    destruct (Hcells (h1 ++ [Heap.OArray copies])) as [Hall Hnd]; [by apply prefix_app_r|].
    split; [done|]. split; [done|]. by eapply owns_summaryCells.
Qed.

End Coverage.

(** * Examples *)

Lemma sample_typed_accepted : accepted sample_typed.
Proof. split; vm_compute; reflexivity. Defined.

(** The reply of a submit in ["today-1"] arrives there, although ["week-1"]
    is the active conversation when it does. *)
Lemma reply_lands_where_submitted_witness :
  accepted sample_typed
  /\ let s2 := run (rng := sample_random) (handleSubmit (rng := sample_random) sample_typed)
                 [EvSelect week_1; EvElapse 600] in
     let s3 := step (rng := sample_random) s2 (EvTimeout 0) in
     activeConversationId s2 = lit "week-1"
     /\ conversations s3 =
          <[lit "today-1" :=
              default [] (conversations s2 !! lit "today-1")
                ++ [submittedReply (rng := sample_random) sample_typed]]> (conversations s2)
     /\ isGenerating s3 = false.
Proof.
  split; [exact sample_typed_accepted|].
  destruct (reply_lands_where_submitted (rng := sample_random) sample_typed
              sample_typed_accepted) as (_ & _ & Hrun).
  destruct (Hrun [EvSelect week_1; EvElapse 600]) as [_ Hlate].
  { eexists. vm_compute. reflexivity. }
  destruct Hlate as (Hc & Hg & _).
  { vm_compute. lia. }
  split; [vm_compute; reflexivity|]. split; [exact Hc|exact Hg].
Defined.

Lemma flag_held_until_reply_witness :
  let events := [EvInput (lit "again"); EvReaction (lit "r0") upvote; EvElapse 300;
                 EvProvider (lit "groq")] in
  let s2 := run (rng := sample_random) (handleSubmit (rng := sample_random) sample_typed)
              events in
  isGenerating s2 = true /\ step (rng := sample_random) s2 EvSubmit = s2.
Proof.
  intros events s2.
  apply (flag_held_until_reply (rng := sample_random) sample_typed events).
  - exact sample_typed_accepted.
  - intros h t Ht. vm_compute in Ht. discriminate Ht.
  - reflexivity.
  - eexists. vm_compute. reflexivity.
Defined.

(** The provider is changed while the reply is pending; the reply names the
    provider of the submit. *)
Lemma reply_content_fixed_at_submit_witness :
  let s2 := run (rng := sample_random) (handleSubmit (rng := sample_random) sample_typed)
              [EvProvider (lit "anthropic"); EvElapse 600] in
  selectedProviderId s2 = lit "anthropic"
  /\ exists m : ConversationMessage,
       last (default [] (conversations (step (rng := sample_random) s2 (EvTimeout 0))
                           !! lit "today-1")) = Some m
       /\ includes (m_content m) (lit "OpenAI").
Proof.
  intros s2. split; [vm_compute; reflexivity|].
  destruct (reply_content_fixed_at_submit (rng := sample_random) sample_typed
              [EvProvider (lit "anthropic"); EvElapse 600] sample_typed_accepted)
    as (m & Hlast & Hcontent & Hprovider & _).
  - eexists. vm_compute. reflexivity.
  - vm_compute. lia.
  - exists m. split; [exact Hlast|]. rewrite Hcontent. exact Hprovider.
Defined.

Lemma sample_pasted_accepted : accepted sample_pasted.
Proof. split; vm_compute; reflexivity. Defined.

(** No text and one pasted image. *)
Lemma user_content_priority_witness :
  trim (input sample_pasted) = []
  /\ length (composerAttachments sample_pasted) = 1
  /\ m_content (submittedMessage (rng := sample_random) sample_pasted)
     = lit "Shared 1 attachment".
Proof.
  split; [vm_compute; reflexivity|]. split; [vm_compute; reflexivity|].
  destruct (user_content_priority (rng := sample_random) sample_pasted sample_pasted_accepted)
    as (_ & _ & _ & _ & Hone & _).
  apply Hone; vm_compute; reflexivity.
Defined.

Lemma sample_index_NoDup : NoDup (all_ids sample_index).
Proof. apply (bool_decide_unpack _). vm_compute. exact I. Defined.

Lemma promote_keeps_ids_unique_witness :
  let calls := [sample_touch (lit "b"); sample_touch (lit "c"); sample_open week_1;
                sample_touch (lit "b")] in
  let result := promoteAll sample_index calls in
  NoDup (all_ids sample_index)
  /\ keepIds sample_index calls
  /\ all_ids result = [lit "b"; lit "week-1"; lit "c"; lit "a"]
  /\ NoDup (all_ids result)
  /\ (forall x, x ∈ all_ids result -> groupsHolding result x = 1).
Proof.
  intros calls result.
  assert (keepIds sample_index calls) as Hkeep.
  { vm_compute. repeat split. }
  split; [exact sample_index_NoDup|]. split; [exact Hkeep|].
  split; [vm_compute; reflexivity|].
  destruct (promote_keeps_ids_unique (rng := sample_random) sample_index calls
              sample_index_NoDup Hkeep)
    as (Hnd & _ & Hone & _).
  split; [exact Hnd|exact Hone].
Defined.

(** C1 as stated fails: selecting a conversation while the reply is pending
    resets the flag, and the next submit is accepted. *)
Lemma flag_reset_by_navigation :
  let s2 := run (rng := sample_random) (handleSubmit (rng := sample_random) sample_typed)
              [EvSelect week_1; EvInput (lit "again")] in
  accepted sample_typed
  /\ is_Some (timers s2 !! nextTimer sample_typed)
  /\ isGenerating s2 = false
  /\ step (rng := sample_random) s2 EvSubmit <> s2
  /\ length <$> (conversations (step (rng := sample_random) s2 EvSubmit) !! lit "week-1")
     = Some 2.
Proof.
  intros s2. split; [exact sample_typed_accepted|].
  split; [eexists; vm_compute; reflexivity|]. split; [vm_compute; reflexivity|].
  split; [|vm_compute; reflexivity].
  intros H. apply (f_equal nextTimer) in H. vm_compute in H. discriminate H.
Qed.

(** C3 as stated fails: an updater may answer with a summary of another
    conversation; that one is then held by two groups and the promoted one is
    gone. *)
Lemma promote_can_duplicate :
  let result := promoteAll sample_index [sample_swap] in
  NoDup (all_ids sample_index)
  /\ all_ids result = [lit "b"; lit "b"]
  /\ ~ NoDup (all_ids result)
  /\ groupsHolding result (lit "b") = 2
  /\ (lit "a" ∉ all_ids result)
  /\ ~ keepsId sample_index sample_swap.
Proof.
  intros result. split; [exact sample_index_NoDup|].
  split; [vm_compute; reflexivity|].
  split; [|split; [vm_compute; reflexivity|split]].
  - intros H. apply (bool_decide_pack _) in H. vm_compute in H. exact H.
  - intros H. apply (bool_decide_pack _) in H. vm_compute in H. exact H.
  - unfold keepsId. intros H. vm_compute in H. discriminate H.
Qed.

(** C5 as stated fails: ["week-1"], never opened, has its entry from the
    start, and selecting it adds nothing to the store. *)
Lemma history_entries_seeded_eagerly :
  is_Some (conversations (init (rng := sample_random)) !! lit "week-1")
  /\ size (conversations (init (rng := sample_random))) = 5
  /\ conversations (handleSelectConversation (rng := sample_random) week_1
                      (init (rng := sample_random)))
     = conversations (init (rng := sample_random)).
Proof.
  split; [eexists; vm_compute; reflexivity|]. split; vm_compute; reflexivity.
Qed.

(** C6 as stated fails: two different draws that agree on their first eight
    digits give the same identifier. *)
Lemma createId_can_repeat :
  lit "0.k3f9x2a7bq1" <> lit "0.k3f9x2a7bz8"
  /\ createId_calls [lit "0.k3f9x2a7bq1"; lit "0.k3f9x2a7bz8"]
     = [lit "k3f9x2a7"; lit "k3f9x2a7"]
  /\ ~ NoDup (createId_calls [lit "0.k3f9x2a7bq1"; lit "0.k3f9x2a7bz8"]).
Proof.
  split; [vm_compute; discriminate|]. split; [vm_compute; reflexivity|].
  intros H. apply (bool_decide_pack _) in H. vm_compute in H. exact H.
Qed.

(** ** Examples for the further properties *)

Lemma init_history_NoDup : NoDup (all_ids (historyGroups (init (rng := sample_random)))).
Proof. apply (bool_decide_unpack _). vm_compute. exact I. Defined.

Lemma history_index_stays_unique_witness :
  let s' := run (rng := sample_random) (init (rng := sample_random))
              [EvNewChat; EvSelect week_1; EvInput (lit "hi"); EvSubmit] in
  NoDup (all_ids (historyGroups s'))
  /\ (forall x, x ∈ all_ids (historyGroups (init (rng := sample_random))) ->
                x ∈ all_ids (historyGroups s'))
  /\ (forall x, x ∈ all_ids (historyGroups s') -> groupsHolding (historyGroups s') x = 1).
Proof.
  exact (history_index_stays_unique (rng := sample_random) (init (rng := sample_random))
           [EvNewChat; EvSelect week_1; EvInput (lit "hi"); EvSubmit] init_history_NoDup).
Defined.

Lemma init_storeCovers : storeCovers (init (rng := sample_random)).
Proof.
  split.
  - apply Forall_forall. apply (bool_decide_unpack _). vm_compute. exact I.
  - eexists. vm_compute. reflexivity.
Defined.

Lemma store_covers_history_witness :
  let s' := run (rng := sample_random) (init (rng := sample_random))
              [EvNewChat; EvInput (lit "hi"); EvSubmit; EvSelect week_1] in
  storeCovers s'
  /\ forall c section,
       section ∈ historyGroups s' -> c ∈ g_conversations section ->
       conversations (handleSelectConversation (rng := sample_random) c s') = conversations s'.
Proof.
  exact (store_covers_history (rng := sample_random) (init (rng := sample_random))
           [EvNewChat; EvInput (lit "hi"); EvSubmit; EvSelect week_1] init_storeCovers).
Defined.

Lemma init_flagBacked : flagBacked (init (rng := sample_random)).
Proof.
  split.
  - intros h _. replace (timers (init (rng := sample_random))) with (∅ : gmap nat Timer)
      by (vm_compute; reflexivity).
    apply lookup_empty.
  - intros H. vm_compute in H. discriminate H.
Defined.

Lemma flag_set_only_while_reply_pending_witness :
  let s' := run (rng := sample_random) (init (rng := sample_random))
              [EvInput (lit "hi"); EvSubmit; EvSelect week_1; EvInput (lit "again"); EvSubmit;
               EvElapse 600; EvTimeout 0] in
  (isGenerating s' = true ->
   exists h cid m d,
     timers s' !! h = Some {| due := d; callback := Reply cid m |} /\ h < nextTimer s')
  /\ (forall h, nextTimer s' <= h -> timers s' !! h = None).
Proof.
  exact (flag_set_only_while_reply_pending (rng := sample_random)
           (init (rng := sample_random))
           [EvInput (lit "hi"); EvSubmit; EvSelect week_1; EvInput (lit "again"); EvSubmit;
            EvElapse 600; EvTimeout 0] init_flagBacked).
Defined.

Lemma init_imagesOnly : imagesOnly (init (rng := sample_random)).
Proof.
  split.
  - replace (reads (init (rng := sample_random))) with (∅ : gmap nat File)
      by (vm_compute; reflexivity).
    apply map_Forall_empty.
  - replace (composerAttachments (init (rng := sample_random))) with (@nil Attachment)
      by (vm_compute; reflexivity).
    constructor.
Defined.

Lemma staged_attachments_are_images_witness :
  imagesOnly sample_pasted
  /\ (accepted sample_pasted ->
      forall attachments a,
        m_attachments (submittedMessage (rng := sample_random) sample_pasted)
          = Some attachments ->
        a ∈ attachments -> startsWith (lit "image/") (a_type a) = true).
Proof.
  exact (staged_attachments_are_images (rng := sample_random) (init (rng := sample_random))
           [EvFiles [sample_png]; EvReaderLoad 0 (Some (lit "data:image/png;base64,AAAA"))]
           init_imagesOnly).
Defined.

Lemma reader_loaded_stages_attachment_witness :
  map a_name (composerAttachments
                (readerLoaded (rng := sample_random) 0 (Some (lit "data:,")) sample_reading))
  = [lit "shot.png"].
Proof.
  assert (reads sample_reading !! 0 = Some sample_png) as Hr by (vm_compute; reflexivity).
  destruct (reader_loaded_stages_attachment (rng := sample_random) sample_reading 0
              sample_png Hr) as (Hload & _).
  destruct (Hload (lit "data:,")) as (Hc & _).
  rewrite Hc. vm_compute. reflexivity.
Defined.

Lemma submit_promotes_active_conversation_witness :
  findConversationTitle (historyGroups (handleSubmit (rng := sample_random) sample_typed))
    (lit "today-1") = lit "Product launch prep"
  /\ input (handleSubmit (rng := sample_random) sample_typed) = [].
Proof.
  destruct (submit_promotes_active_conversation (rng := sample_random) sample_typed
              sample_typed_accepted) as (_ & Htitle & _ & Hinput & _).
  split; [|exact Hinput].
  etrans; [exact Htitle|]. vm_compute. reflexivity.
Defined.

Lemma historySeed_NoDup : NoDup (all_ids historySeed).
Proof. apply (bool_decide_unpack _). vm_compute. exact I. Defined.

Lemma initial_store_entries_witness :
  NoDup (all_ids historySeed)
  /\ forall x, is_Some (conversations (init (rng := sample_random)) !! x)
               <-> x ∈ all_ids historySeed.
Proof.
  split; [exact historySeed_NoDup|].
  destruct (initial_store_entries (rng := sample_random) historySeed 0 historySeed_NoDup)
    as [Hdom _].
  exact Hdom.
Defined.
